(** * The web client of the dubbing / story-shorts service

    A shallow embedding of the TypeScript client
    ([web/app/lib/auth.ts], [web/app/lib/api.ts], [web/app/hooks/useJobSSE.ts],
    [web/app/components/JobProgress.tsx], [web/app/components/DubForm.tsx],
    [web/app/components/StoryForm.tsx], [web/app/page.tsx]) together with a
    model of the job engine as the design document describes it.

    The browser is modelled by explicit state: [localStorage] is a finite
    map, [window.location.href] a string, an [EventSource] an object with a
    [closed] flag and a table of listeners keyed by event type.  React state
    is a record; a [setX] call is a record update. *)

From Stdlib Require Import Ascii String ZArith Lia Bool.
From stdpp Require Import base option list strings gmap.

Set Warnings "-register-all".
Local Open Scope string_scope.

(** ** JavaScript values that cross the client's state *)

(** A JavaScript string is kept as the bytes of its UTF-8 encoding: it is
    empty, or equal to another string, exactly when its bytes are. *)

(** The values a [string | null] state cell or an [Event]'s [data]
    property can hold at run time. *)
Inductive jsval :=
| JUndefined
| JNull
| JStr (s : string).

#[global] Instance jsval_eq_dec : EqDecision jsval.
Proof. solve_decision. Defined.

(** JavaScript truthiness of a string: only the empty string is falsy. *)
Definition truthy_string (s : string) : bool := negb (String.eqb s "").

(** Truthiness of a [string | null] value as returned by
    [localStorage.getItem]. *)
Definition truthy_opt (o : option string) : bool :=
  match o with
  | Some s => truthy_string s
  | None => false
  end.

(** ** [lib/auth.ts] *)

Module Auth.

Definition TOKEN_KEY : string := "yt_token".
Definition EMAIL_KEY : string := "yt_email".

(** The part of the browser the client reads and writes. *)
Record Browser := mkBrowser {
  localStorage : gmap string string;
  location_href : string
}.

Definition getToken (b : Browser) : option string :=
  localStorage b !! TOKEN_KEY.

Definition getEmail (b : Browser) : option string :=
  localStorage b !! EMAIL_KEY.

Definition isLoggedIn (b : Browser) : bool := truthy_opt (getToken b).

Definition saveAuth (token email : string) (b : Browser) : Browser :=
  mkBrowser (<[EMAIL_KEY := email]> (<[TOKEN_KEY := token]> (localStorage b)))
            (location_href b).

Definition logout (b : Browser) : Browser :=
  mkBrowser (delete EMAIL_KEY (delete TOKEN_KEY (localStorage b)))
            (location_href b).

(** [{...(token ? {Authorization: `Bearer ${token}`} : {}), ...extra}]:
    the keys of [extra] win over the ones spread before them. *)
Definition authHeaders (extra : gmap string string) (b : Browser)
  : gmap string string :=
  let base : gmap string string :=
    match getToken b with
    | Some token =>
        if truthy_string token
        then {[ "Authorization" := "Bearer " ++ token ]}
        else ∅
    | None => ∅
    end in
  extra ∪ base.

End Auth.

(** ** JSON values and the fragments of JavaScript applied to them *)

(** A JavaScript number is a double.  The client never computes with one:
    it tests it for truthiness, converts it to a string and writes it as
    JSON, so a number is kept as what these three read from it. *)
Record number := mkNumber {
  falsy : bool;        (* it is [0], [-0] or [NaN] *)
  digits : string;     (* its conversion to a string *)
  finite : bool        (* it is neither [NaN] nor an infinity *)
}.

(** The result of [JSON.parse]; an object lists each of its keys once. *)
Inductive json :=
| JsNull
| JsBool (b : bool)
| JsNum (x : number)
| JsString (s : string)
| JsArray (items : list json)
| JsObject (fields : list (string * json)).

(** A JavaScript exception.  All three are instances of [Error]; the
    message of the two native ones is chosen by the engine. *)
Inductive exn :=
| Error (message : string)
| SyntaxError (message : string)
| TypeError (message : string).

Definition exn_message (e : exn) : string :=
  match e with
  | Error m | SyntaxError m | TypeError m => m
  end.

Inductive result (A : Type) :=
| Returned (a : A)
| Threw (e : exn).
Arguments Returned {A} a.
Arguments Threw {A} e.

Fixpoint assoc (k : string) (fields : list (string * json)) : option json :=
  match fields with
  | [] => None
  | (k', v) :: rest => if String.eqb k k' then Some v else assoc k rest
  end.

(** V8's message for reading a property of [null]. *)
Definition null_property_message (prop : string) : string :=
  "Cannot read properties of null (reading '" ++ prop ++ "')".

(** [v.prop] on a parsed value: [None] is [undefined]; reading a property
    of [null] throws. Primitives and arrays have no own property of the
    names the client reads. *)
Definition get_prop (v : json) (prop : string) : result (option json) :=
  match v with
  | JsNull => Threw (TypeError (null_property_message prop))
  | JsObject fields => Returned (assoc prop fields)
  | _ => Returned None
  end.

(** Truthiness of a possibly undefined JSON value. *)
Definition truthy (v : option json) : bool :=
  match v with
  | None => false
  | Some JsNull => false
  | Some (JsBool b) => b
  | Some (JsNum x) => negb (falsy x)
  | Some (JsString s) => truthy_string s
  | Some (JsArray _) => true
  | Some (JsObject _) => true
  end.

Fixpoint join (sep : string) (l : list string) : string :=
  match l with
  | [] => ""
  | [s] => s
  | s :: rest => s ++ sep ++ join sep rest
  end.

(** V8's message when an object has no conversion to a primitive. *)
Definition primitive_conversion_message : string :=
  "Cannot convert object to primitive value".

(** The conversion of a parsed value to a string, as [new Error(v)] and
    [localStorage.setItem(k, v)] apply it.  An array joins the conversions
    of its elements with commas, with the empty string for [null]; an
    object is ["[object Object]"], unless it has a key [toString] of its
    own: that key hides the inherited method and, not being a function,
    leaves no conversion, so a [TypeError] is thrown. *)
Fixpoint to_string (v : json) : result string :=
  match v with
  | JsNull => Returned "null"
  | JsBool true => Returned "true"
  | JsBool false => Returned "false"
  | JsNum x => Returned (digits x)
  | JsString s => Returned s
  | JsArray items =>
      match
        (fix elements (l : list json) : result (list string) :=
           match l with
           | [] => Returned []
           | x :: rest =>
               match (match x with JsNull => Returned "" | _ => to_string x end) with
               | Threw e => Threw e
               | Returned s =>
                   match elements rest with
                   | Threw e => Threw e
                   | Returned ss => Returned (s :: ss)
                   end
               end
           end) items
      with
      | Threw e => Threw e
      | Returned ss => Returned (join "," ss)
      end
  | JsObject fields =>
      match assoc "toString" fields with
      | Some _ => Threw (TypeError primitive_conversion_message)
      | None => Returned "[object Object]"
      end
  end.

(** The message [new Error(x || fallback)] is given: the conversion of [x]
    when [x] is truthy, else [fallback]; the conversion may throw. *)
Definition or_else_message (v : option json) (fallback : string) : result string :=
  match v with
  | Some x => if truthy v then to_string x else Returned fallback
  | None => Returned fallback
  end.

(** What [throw new Error(x || fallback)] throws: the new [Error], or the
    [TypeError] of the conversion. *)
Definition new_error (v : option json) (fallback : string) : exn :=
  match or_else_message v fallback with
  | Returned message => Error message
  | Threw e => e
  end.

(** ** [lib/api.ts] *)

Module Api.
Import Auth.

Definition API : string := "http://localhost:8000/api".

(** What [res.json()] finds in the body. *)
Inductive Body :=
| BodyJson (v : json)
| BodyInvalid (syntax_message : string).

Record Response := mkResponse {
  status : Z;
  body : Body
}.

(** [res.ok]: the status is in the range 200-299. *)
Definition ok (res : Response) : bool :=
  ((200 <=? status res) && (status res <=? 299))%Z.

Record Request := mkRequest {
  req_url : string;
  req_method : string;
  req_headers : gmap string string;
  req_body : option json
}.

(** The outcome of [fetch]: a response of any status, or a rejection when
    the network fails. *)
Inductive FetchResult :=
| Responded (res : Response)
| NetworkError (message : string).

(** The server and the network between it and the client. *)
Definition Server := Request -> FetchResult.

(** Computations that read and write the browser and may throw. *)
Definition M (A : Type) : Type := Browser -> Browser * result A.

Definition ret {A} (a : A) : M A := fun b => (b, Returned a).
Definition throw {A} (e : exn) : M A := fun b => (b, Threw e).
Definition bind {A B} (m : M A) (k : A -> M B) : M B :=
  fun b =>
    match m b with
    | (b', Returned a) => k a b'
    | (b', Threw e) => (b', Threw e)
    end.
Definition lift {A} (r : result A) : M A := fun b => (b, r).
Definition read {A} (f : Browser -> A) : M A := fun b => (b, Returned (f b)).
Definition write (f : Browser -> Browser) : M unit := fun b => (f b, Returned tt).

Notation "x <- m ;; k" := (bind m (fun x => k))
  (at level 100, m at next level, right associativity).
Notation "m ;;; k" := (bind m (fun _ => k))
  (at level 100, right associativity).

Definition fetch (server : Server) (req : Request) : M Response :=
  match server req with
  | Responded res => ret res
  | NetworkError m => throw (TypeError m)
  end.

Definition res_json (res : Response) : M json :=
  match body res with
  | BodyJson v => ret v
  | BodyInvalid m => throw (SyntaxError m)
  end.

Definition handleResponse (res : Response) : M Response :=
  if ((status res =? 401) || (status res =? 403))%Z then
    write logout ;;;
    write (fun b => mkBrowser (localStorage b) "/login") ;;;
    throw (Error "Session expired")
  else ret res.

Definition getConfig (server : Server) : M json :=
  res <- fetch server (mkRequest (API ++ "/config") "GET" ∅ None) ;;
  if negb (ok res) then throw (Error "Failed to fetch config")
  else res_json res.

Module DubParams.
Record t := mk {
  url : option string;
  file_path : option string;
  source_lang : string;
  target_lang : string;
  speaker : option string;
  workers : option number
}.
End DubParams.

Module StoryParams.
Record t := mk {
  text : option string;
  theme : option string;
  keyword : option string;
  target_lang : string;
  speaker : option string;
  mood : option string;
  no_upload : option bool;
  workers : option number
}.
End StoryParams.

(** One property of the object [JSON.stringify] writes: a property whose
    value is [undefined] is left out. *)
Definition field {A} (name : string) (inj : A -> json) (v : option A)
  : list (string * json) :=
  match v with
  | Some a => [(name, inj a)]
  | None => []
  end.

(** A number as [JSON.stringify] writes it: [null] when it is not finite. *)
Definition number_json (x : number) : json :=
  if finite x then JsNum x else JsNull.

(** [JSON.stringify(params)], kept as the JSON value it denotes. *)
Definition stringify_dub (p : DubParams.t) : json :=
  JsObject
    (field "url" JsString (DubParams.url p) ++
     field "file_path" JsString (DubParams.file_path p) ++
     [("source_lang", JsString (DubParams.source_lang p))] ++
     [("target_lang", JsString (DubParams.target_lang p))] ++
     field "speaker" JsString (DubParams.speaker p) ++
     field "workers" number_json (DubParams.workers p)).

Definition stringify_story (p : StoryParams.t) : json :=
  JsObject
    (field "text" JsString (StoryParams.text p) ++
     field "theme" JsString (StoryParams.theme p) ++
     field "keyword" JsString (StoryParams.keyword p) ++
     [("target_lang", JsString (StoryParams.target_lang p))] ++
     field "speaker" JsString (StoryParams.speaker p) ++
     field "mood" JsString (StoryParams.mood p) ++
     field "no_upload" JsBool (StoryParams.no_upload p) ++
     field "workers" number_json (StoryParams.workers p)).

Definition json_headers : gmap string string :=
  {[ "Content-Type" := "application/json" ]}.

(** The tail shared by [submitDub] and [submitStory]: a response that is
    not OK throws its [detail], or the fallback when [detail] is falsy. *)
Definition reject_or_parse (fallback : string) (res : Response) : M json :=
  if negb (ok res) then
    err <- res_json res ;;
    detail <- lift (get_prop err "detail") ;;
    throw (new_error detail fallback)
  else res_json res.

Definition submitDub (server : Server) (params : DubParams.t) : M json :=
  headers <- read (authHeaders json_headers) ;;
  fetched <- fetch server
    (mkRequest (API ++ "/dub") "POST" headers (Some (stringify_dub params))) ;;
  res <- handleResponse fetched ;;
  reject_or_parse "Failed to submit dub job" res.

Definition submitStory (server : Server) (params : StoryParams.t) : M json :=
  headers <- read (authHeaders json_headers) ;;
  fetched <- fetch server
    (mkRequest (API ++ "/story") "POST" headers (Some (stringify_story params))) ;;
  res <- handleResponse fetched ;;
  reject_or_parse "Failed to submit story job" res.

Definition getJob (server : Server) (jobId : string) : M json :=
  headers <- read (authHeaders ∅) ;;
  fetched <- fetch server
    (mkRequest (API ++ "/jobs/" ++ jobId) "GET" headers None) ;;
  res <- handleResponse fetched ;;
  if negb (ok res) then throw (Error "Failed to fetch job")
  else res_json res.

Definition token_query (b : Browser) : string :=
  match getToken b with
  | Some token => if truthy_string token then "?token=" ++ token else ""
  | None => ""
  end.

Definition getDownloadUrl (jobId : string) (b : Browser) : string :=
  API ++ "/jobs/" ++ jobId ++ "/download" ++ token_query b.

Definition getEventsUrl (jobId : string) (b : Browser) : string :=
  API ++ "/jobs/" ++ jobId ++ "/events" ++ token_query b.

End Api.

(** ** [hooks/useJobSSE.ts] *)

Module UseJobSSE.
Import Auth.

Inductive Status := Connecting | Streaming | Done | Failed.

#[global] Instance Status_eq_dec : EqDecision Status.
Proof. solve_decision. Defined.

(** The events a browser dispatches at an [EventSource].  A server-sent
    event is a [MessageEvent] whose type is the stream's [event:] field
    (["message"] when the field is absent) and whose [data] is a string.
    [ConnOpen] and [ConnError] are the plain events of type ["open"] and
    ["error"] the browser fires itself; they have no [data] property. *)
Inductive Event :=
| ServerSent (name data : string)
| ConnOpen
| ConnError.

Definition type (e : Event) : string :=
  match e with
  | ServerSent name _ => name
  | ConnOpen => "open"
  | ConnError => "error"
  end.

Definition data (e : Event) : jsval :=
  match e with
  | ServerSent _ d => JStr d
  | ConnOpen | ConnError => JUndefined
  end.

Record EventSource := mkES {
  es_url : string;
  closed : bool
}.

(** The three state cells of the hook and the [EventSource] it holds. *)
Record State := mkState {
  lines : list jsval;
  status : Status;
  error : jsval;
  es : option EventSource
}.

Definition setLines (f : list jsval -> list jsval) (st : State) : State :=
  mkState (f (lines st)) (status st) (error st) (es st).
Definition setStatus (s : Status) (st : State) : State :=
  mkState (lines st) s (error st) (es st).
Definition setError (v : jsval) (st : State) : State :=
  mkState (lines st) (status st) v (es st).

(** [es.close()] *)
Definition close (st : State) : State :=
  mkState (lines st) (status st) (error st)
          (match es st with
           | Some s => Some (mkES (es_url s) true)
           | None => None
           end).

Definition Listener := Event -> State -> State.

(** [es.onopen] *)
Definition onopen : Listener := fun _ st => setStatus Streaming st.

(** [es.onmessage] *)
Definition onmessage : Listener :=
  fun e st => setLines (fun prev => (prev ++ [data e])%list) st.

(** [es.addEventListener("error", ...)] *)
Definition error_listener : Listener := fun e st => setError (data e) st.

(** [es.addEventListener("done", ...)] *)
Definition done_listener : Listener :=
  fun e st =>
    close (setStatus (if decide (data e = JStr "completed") then Done else Failed) st).

(** [es.onerror] *)
Definition onerror : Listener := fun _ st => close (setStatus Failed st).

(** The listeners of the [EventSource] in the order the effect registers
    them, each under the event type it listens to: an [on<type>] handler
    is the listener for events of type [<type>], so ["error"] has two
    listeners, the one added with [addEventListener] and [onerror].  A
    server-sent event named [error] and a connection error are both
    events of type ["error"]; they differ in their [data]. *)
Definition listeners : list (string * Listener) :=
  [ ("open", onopen);
    ("message", onmessage);
    ("error", error_listener);
    ("done", done_listener);
    ("error", onerror) ].

(** Every listener registered for the event's type runs, in order of
    registration; closing the [EventSource] in one of them does not stop
    the ones after it. *)
Definition fire (e : Event) (st : State) : State :=
  fold_left
    (fun s (l : string * Listener) =>
       if String.eqb (fst l) (type e) then snd l e s else s)
    listeners st.

Definition is_open (st : State) : bool :=
  match es st with
  | Some s => negb (closed s)
  | None => false
  end.

(** The browser dispatches an event, of either kind, only while the
    [EventSource] is not closed. *)
Definition dispatch (e : Event) (st : State) : State :=
  if is_open st then fire e st else st.

(** The values of [useState] and [useRef] at the first render. *)
Definition initial : State := mkState [] Connecting JNull None.

(** The body of the effect, run when [jobId] changes. *)
Definition effect (jobId : option string) (b : Browser) (st : State) : State :=
  match jobId with
  | Some id =>
      if truthy_string id
      then mkState [] Connecting JNull (Some (mkES (Api.getEventsUrl id b) false))
      else st
  | None => st
  end.

(** The cleanup the effect returns. *)
Definition cleanup (st : State) : State := close st.

(** The hook's state after the browser has offered a sequence of events. *)
Fixpoint run (evs : list Event) (st : State) : State :=
  match evs with
  | [] => st
  | e :: rest => run rest (dispatch e st)
  end.

(** The events of a sequence that reach the listeners: the ones offered
    while the [EventSource] is open. *)
Fixpoint received (evs : list Event) (st : State) : list Event :=
  match evs with
  | [] => []
  | e :: rest =>
      if is_open st then e :: received rest (dispatch e st)
      else received rest (dispatch e st)
  end.

(** The [data] of the events of type ["message"]. *)
Definition message_data (evs : list Event) : list jsval :=
  map data (filter (fun e => type e = "message") evs).

End UseJobSSE.

(** ** [components/JobProgress.tsx] *)

Module JobProgress.
Import UseJobSSE.

Inductive Outcome := completed | failed.

#[global] Instance Outcome_eq_dec : EqDecision Outcome.
Proof. solve_decision. Defined.

(** The effect on [status]: the calls it makes to [onDone]. *)
Definition status_effect (s : Status) : list Outcome :=
  match s with
  | Done => [completed]
  | Failed => [failed]
  | Connecting | Streaming => []
  end.

End JobProgress.

(** ** Strings: [String.prototype.trim] *)

(** The white space [trim] removes is the characters U+0009 to U+000D,
    U+0020, U+00A0, U+1680, U+2000 to U+200A, U+2028, U+2029, U+202F,
    U+205F, U+3000 and U+FEFF.  In UTF-8 they take one, two or three
    bytes; the three predicates below recognise them by their bytes. *)
Definition white_space_1 (a : ascii) : bool :=
  match Ascii.N_of_ascii a with
  | 9%N | 10%N | 11%N | 12%N | 13%N | 32%N => true
  | _ => false
  end.

(** U+00A0 is [C2 A0]. *)
Definition white_space_2 (a b : ascii) : bool :=
  (Ascii.N_of_ascii a =? 194)%N && (Ascii.N_of_ascii b =? 160)%N.

(** U+1680 is [E1 9A 80]; U+2000 to U+200A are [E2 80 80] to [E2 80 8A];
    U+2028, U+2029 and U+202F are [E2 80 A8], [E2 80 A9] and [E2 80 AF];
    U+205F is [E2 81 9F]; U+3000 is [E3 80 80]; U+FEFF is [EF BB BF]. *)
Definition white_space_3 (a b c : ascii) : bool :=
  let a := Ascii.N_of_ascii a in
  let b := Ascii.N_of_ascii b in
  let c := Ascii.N_of_ascii c in
  ((a =? 225) && (b =? 154) && (c =? 128)
   || (a =? 226) && (b =? 128)
      && ((128 <=? c) && (c <=? 138) || (c =? 168) || (c =? 169) || (c =? 175))
   || (a =? 226) && (b =? 129) && (c =? 159)
   || (a =? 227) && (b =? 128) && (c =? 128)
   || (a =? 239) && (b =? 187) && (c =? 191))%N.

(** The whole string is one white-space character. *)
Definition is_white_space (s : string) : bool :=
  match s with
  | String a EmptyString => white_space_1 a
  | String a (String b EmptyString) => white_space_2 a b
  | String a (String b (String c EmptyString)) => white_space_3 a b c
  | _ => false
  end.

Fixpoint trim_start (s : string) : string :=
  match s with
  | EmptyString => EmptyString
  | String a r1 =>
      if white_space_1 a then trim_start r1
      else match r1 with
           | EmptyString => s
           | String b r2 =>
               if white_space_2 a b then trim_start r2
               else match r2 with
                    | EmptyString => s
                    | String c r3 =>
                        if white_space_3 a b c then trim_start r3 else s
                    end
           end
  end.

(** From the end: what is kept of the rest, with the byte before it, is
    dropped when it is exactly one white-space character. *)
Fixpoint trim_end (s : string) : string :=
  match s with
  | EmptyString => EmptyString
  | String a rest =>
      let kept := String a (trim_end rest) in
      if is_white_space kept then EmptyString else kept
  end.

Definition trim (s : string) : string := trim_end (trim_start s).

(** [s || undefined] *)
Definition or_undefined (s : string) : option string :=
  if truthy_string s then Some s else None.

(** ** [components/DubForm.tsx] *)

Module DubForm.
Import Auth Api.

Record State := mkState {
  url : string;
  sourceLang : string;
  targetLang : string;
  speaker : string;
  loading : bool;
  error : string
}.

Definition initial : State := mkState "" "en-IN" "hi-IN" "" false "".

Definition setError (m : string) (st : State) : State :=
  mkState (url st) (sourceLang st) (targetLang st) (speaker st) (loading st) m.
Definition setLoading (l : bool) (st : State) : State :=
  mkState (url st) (sourceLang st) (targetLang st) (speaker st) l (error st).

(** The object passed to [submitDub]. *)
Definition params (st : State) : DubParams.t :=
  DubParams.mk (or_undefined (url st)) None (sourceLang st) (targetLang st)
               (or_undefined (speaker st)) None.

(** Each call of [onJobStarted], by its argument ([None]: [undefined]). *)
Definition Calls := list (option json).

(** [handleSubmit]: the form's next state and the calls it made to
    [onJobStarted]. *)
Definition handleSubmit (server : Server) (st : State) (b : Browser)
  : Browser * (State * Calls) :=
  let st1 := setLoading true (setError "" st) in
  let attempt := res <- submitDub server (params st) ;; lift (get_prop res "job_id") in
  match attempt b with
  | (b', Returned job_id) => (b', (setLoading false st1, [job_id]))
  | (b', Threw err) => (b', (setLoading false (setError (exn_message err) st1), []))
  end.

(** The submit button's [disabled] attribute. *)
Definition disabled (st : State) : bool := loading st || negb (truthy_string (url st)).

End DubForm.

(** ** [components/StoryForm.tsx] *)

Module StoryForm.
Import Auth Api.

Inductive Mode := theme_mode | text_mode.

Record State := mkState {
  mode : Mode;
  theme : string;
  keyword : string;
  text : string;
  targetLang : string;
  speaker : string;
  mood : string;
  loading : bool;
  error : string
}.

Definition initial : State :=
  mkState theme_mode "aesop" "" "" "hi-IN" "" "default" false "".

Definition setError (m : string) (st : State) : State :=
  mkState (mode st) (theme st) (keyword st) (text st) (targetLang st)
          (speaker st) (mood st) (loading st) m.
Definition setLoading (l : bool) (st : State) : State :=
  mkState (mode st) (theme st) (keyword st) (text st) (targetLang st)
          (speaker st) (mood st) l (error st).

(** The object passed to [submitStory]. *)
Definition params (st : State) : StoryParams.t :=
  StoryParams.mk
    (match mode st with text_mode => Some (text st) | theme_mode => None end)
    (match mode st with theme_mode => Some (theme st) | text_mode => None end)
    (match mode st with
     | theme_mode => if truthy_string (keyword st) then Some (keyword st) else None
     | text_mode => None
     end)
    (targetLang st)
    (or_undefined (speaker st))
    (Some (mood st))
    (Some true)
    None.

Definition handleSubmit (server : Server) (st : State) (b : Browser)
  : Browser * (State * DubForm.Calls) :=
  let st1 := setLoading true (setError "" st) in
  let attempt := res <- submitStory server (params st) ;; lift (get_prop res "job_id") in
  match attempt b with
  | (b', Returned job_id) => (b', (setLoading false st1, [job_id]))
  | (b', Threw err) => (b', (setLoading false (setError (exn_message err) st1), []))
  end.

Definition isValid (st : State) : bool :=
  match mode st with
  | text_mode => (0 <? String.length (trim (text st)))%nat
  | theme_mode => true
  end.

Definition disabled (st : State) : bool := loading st || negb (isValid st).

End StoryForm.

(** ** [components/DownloadButton.tsx] *)

Module DownloadButton.

(** The [href] of the link the component renders. *)
Definition href (jobId : string) (b : Auth.Browser) : string :=
  Api.getDownloadUrl jobId b.

End DownloadButton.

(** ** [page.tsx] *)

Module Page.
Import Auth.

Record Config := mkConfig {
  languages : list (string * string);
  speakers : list string;
  themes : list string;
  moods : list string
}.

Inductive JobStatus := running | completed | failed.

#[global] Instance JobStatus_eq_dec : EqDecision JobStatus.
Proof. solve_decision. Defined.

Definition of_outcome (o : JobProgress.Outcome) : JobStatus :=
  match o with
  | JobProgress.completed => completed
  | JobProgress.failed => failed
  end.

Record State := mkState {
  config : option Config;
  jobId : option string;
  jobDone : bool;
  jobStatus : JobStatus;
  authChecked : bool
}.

Definition initial : State := mkState None None false running false.

Definition setConfig (c : Config) (st : State) : State :=
  mkState (Some c) (jobId st) (jobDone st) (jobStatus st) (authChecked st).
Definition setJobId (id : option string) (st : State) : State :=
  mkState (config st) id (jobDone st) (jobStatus st) (authChecked st).
Definition setJobDone (d : bool) (st : State) : State :=
  mkState (config st) (jobId st) d (jobStatus st) (authChecked st).
Definition setJobStatus (s : JobStatus) (st : State) : State :=
  mkState (config st) (jobId st) (jobDone st) s (authChecked st).
Definition setAuthChecked (a : bool) (st : State) : State :=
  mkState (config st) (jobId st) (jobDone st) (jobStatus st) a.

(** The effect run at mount.  Without a session it only navigates to the
    login page, which is not part of this state; with one it sets
    [authChecked] and requests the configuration, which [setConfig]
    stores when it arrives. *)
Definition mount_effect (b : Browser) (st : State) : State :=
  if negb (isLoggedIn b) then st else setAuthChecked true st.

Definition handleJobStarted (id : string) (st : State) : State :=
  setJobStatus running (setJobDone false (setJobId (Some id) st)).

Definition handleDone (outcome : JobProgress.Outcome) (st : State) : State :=
  setJobStatus (of_outcome outcome) (setJobDone true st).

(** [handleLogout] clears the session; the navigation to the login page
    that follows is not part of this state. *)
Definition handleLogout (b : Browser) : Browser := logout b.

(** What [Home] renders: the spinner, the form card, or the progress card
    with or without the download link ([DownloadButton]) and the failure
    banner. *)
Inductive View :=
| Spinner
| FormCard
| ProgressCard (download_link failure_banner : bool).

Definition view (st : State) : View :=
  if negb (authChecked st) || negb (bool_decide (is_Some (config st))) then Spinner
  else if negb (truthy_opt (jobId st)) then FormCard
  else ProgressCard
         (jobDone st && bool_decide (jobStatus st = completed))
         (jobDone st && bool_decide (jobStatus st = failed)).

Definition offers_download (st : State) : bool :=
  match view st with
  | ProgressCard true _ => true
  | _ => false
  end.

End Page.

(** ** The page with the progress component it mounts *)

Module App.
Import Auth.

Record State := mkState {
  home : Page.State;
  sse : option UseJobSSE.State   (* the hook of the mounted [JobProgress] *)
}.

Definition initial : State := mkState Page.initial None.

Inductive Action :=
| Mount                              (* the mount effect of [Home] *)
| ConfigLoaded (c : Page.Config)     (* [getConfig()] resolves *)
| JobStarted (id : string)           (* the form calls [onJobStarted] *)
| Stream (e : UseJobSSE.Event)       (* the browser offers an event *)
| StartNewJob.                       (* the "Start new job" button *)

(** Mounting [JobProgress] when the page shows the progress card. *)
Definition mount_progress (b : Browser) (h : Page.State) : option UseJobSSE.State :=
  match Page.view h with
  | Page.ProgressCard _ _ =>
      Some (UseJobSSE.effect (Page.jobId h) b UseJobSSE.initial)
  | _ => None
  end.

Definition step (b : Browser) (a : Action) (st : State) : State :=
  match a with
  | Mount => mkState (Page.mount_effect b (home st)) (sse st)
  | ConfigLoaded c => mkState (Page.setConfig c (home st)) (sse st)
  | JobStarted id =>
      match Page.view (home st) with
      | Page.FormCard =>
          let h := Page.handleJobStarted id (home st) in
          mkState h (mount_progress b h)
      | _ => st
      end
  | Stream e =>
      match sse st with
      | Some hook =>
          let hook' := UseJobSSE.dispatch e hook in
          let calls :=
            if decide (UseJobSSE.status hook' = UseJobSSE.status hook) then []
            else JobProgress.status_effect (UseJobSSE.status hook') in
          mkState (fold_left (fun h o => Page.handleDone o h) calls (home st))
                  (Some hook')
      | None => st
      end
  | StartNewJob =>
      match Page.view (home st) with
      | Page.ProgressCard _ _ => mkState (Page.setJobId None (home st)) None
      | _ => st
      end
  end.

Fixpoint run (b : Browser) (acts : list Action) (st : State) : State :=
  match acts with
  | [] => st
  | a :: rest => run b rest (step b a st)
  end.

(** The page is past its spinner. *)
Definition ready (h : Page.State) : Prop :=
  Page.authChecked h = true /\ is_Some (Page.config h).

(** How the page's two job cells follow the hook of the mounted progress
    component: streaming and not yet done, or closed with the outcome the
    hook ended in.  Without a progress component there is no job id to
    show. *)
Definition consistent (st : State) : Prop :=
  match sse st with
  | Some hook =>
      ready (home st)
      /\ truthy_opt (Page.jobId (home st)) = true
      /\ ((UseJobSSE.is_open hook = true
           /\ (UseJobSSE.status hook = UseJobSSE.Connecting
               \/ UseJobSSE.status hook = UseJobSSE.Streaming)
           /\ Page.jobDone (home st) = false
           /\ Page.jobStatus (home st) = Page.running)
          \/ (UseJobSSE.is_open hook = false
              /\ UseJobSSE.status hook = UseJobSSE.Done
              /\ Page.jobDone (home st) = true
              /\ Page.jobStatus (home st) = Page.completed)
          \/ (UseJobSSE.is_open hook = false
              /\ UseJobSSE.status hook = UseJobSSE.Failed
              /\ Page.jobDone (home st) = true
              /\ Page.jobStatus (home st) = Page.failed))
  | None => truthy_opt (Page.jobId (home st)) = false
  end.

End App.

(** * The job engine, as the design document describes it

    The server side (job registry, progress bus, cache store, stage
    executor and scheduler) is not part of the client sources; the three
    modules below follow the design document. *)

(** ** The live progress protocol *)

Module ProgressStream.
Import UseJobSSE.

(** Modelled from the spec: what a running job makes observable, in the
    order it happens (the job registry is missing from the sources). *)
Inductive Occurrence :=
| Progress (line : string)      (* a line appended to the job's log *)
| Warning (message : string).   (* a non-fatal warning *)

(** Modelled from the spec: a job as its subscribers see it, the
    occurrences of its run and its terminal outcome. *)
Record Job := mkJob {
  occurrences : list Occurrence;
  outcome : JobProgress.Outcome
}.

(** Modelled from the spec: the job's own log, the progress lines in
    append order. *)
Fixpoint log (occs : list Occurrence) : list string :=
  match occs with
  | [] => []
  | Progress line :: rest => line :: log rest
  | Warning _ :: rest => log rest
  end.

(** Modelled from the spec: the payload of the terminal event. *)
Definition payload (o : JobProgress.Outcome) : string :=
  match o with
  | JobProgress.completed => "completed"
  | JobProgress.failed => "failed"
  end.

(** Modelled from the spec: a live occurrence on the wire (the stream
    handler is missing from the sources); a log line is a plain message, a
    warning an event named [error]. *)
Definition live (o : Occurrence) : Event :=
  match o with
  | Progress line => ServerSent "message" line
  | Warning m => ServerSent "error" m
  end.

(** Modelled from the spec: the server's event stream for one job (the
    progress bus and its stream handler are missing from the sources).
    A subscriber that joins after [joined] occurrences first gets the
    log so far replayed, then the live events, then the one terminal
    [done] event, after which the stream ends. *)
Definition stream (j : Job) (joined : nat) : list Event :=
  (map (ServerSent "message") (log (take joined (occurrences j))) ++
   map live (drop joined (occurrences j)) ++
   [ServerSent "done" (payload (outcome j))])%list.

End ProgressStream.

(** ** The cache store *)

Module CacheStore.
Local Open Scope list_scope.

(** Modelled from the spec: a cache key (the store is missing from the
    sources): stage name, fingerprint of the normalized inputs, and the
    target language for the stages that depend on it. *)
Definition Key : Type := string * string * option string.

Definition Caller := nat.

(** Modelled from the spec: what a caller of the store ends up with. *)
Inductive Result :=
| Artifact (ref : string)
| Failure (reason : string).

(** Modelled from the spec: the store, the computations under way, and
    a record of the adapter calls and deliveries made. *)
Record State := mkState {
  entries : gmap Key string;            (* key to artifact reference *)
  in_flight : gmap Key (list Caller);   (* computations under way, with who waits *)
  upstream_calls : list Key;            (* adapter calls issued, oldest first *)
  finished : list Key;                  (* adapter calls that have returned *)
  delivered : list (Caller * Key * Result)
}.

Definition empty : State := mkState ∅ ∅ [] [] [].

(** Modelled from the spec: what happens at the store, in the order the
    store's own synchronization serializes it. *)
Inductive Event :=
| Request (c : Caller) (k : Key)     (* a job asks for the output under [k] *)
| Complete (k : Key) (r : Result).   (* the adapter call for [k] returns *)

(** Modelled from the spec: the cache store's coalescing of requests
    (the store is missing from the sources).  A present key is served
    from the store; an absent key with a computation under way makes the
    caller wait for it; an absent key with none starts the one upstream
    call.  When the call returns, every waiting caller receives its
    result, and an artifact is stored. *)
Definition step (ev : Event) (st : State) : State :=
  match ev with
  | Request c k =>
      match entries st !! k with
      | Some a =>
          mkState (entries st) (in_flight st) (upstream_calls st) (finished st)
                  (delivered st ++ [(c, k, Artifact a)])
      | None =>
          match in_flight st !! k with
          | Some waiting =>
              mkState (entries st) (<[k := waiting ++ [c]]> (in_flight st))
                      (upstream_calls st) (finished st) (delivered st)
          | None =>
              mkState (entries st) (<[k := [c]]> (in_flight st))
                      (upstream_calls st ++ [k]) (finished st) (delivered st)
          end
      end
  | Complete k r =>
      match in_flight st !! k with
      | Some waiting =>
          mkState (match r with
                   | Artifact a => <[k := a]> (entries st)
                   | Failure _ => entries st
                   end)
                  (delete k (in_flight st))
                  (upstream_calls st)
                  (finished st ++ [k])
                  (delivered st ++ map (fun c => (c, k, r)) waiting)
      | None => st
      end
  end.

Fixpoint run (evs : list Event) (st : State) : State :=
  match evs with
  | [] => st
  | ev :: rest => run rest (step ev st)
  end.

(** The callers that ask for [k] in a sequence of events, in order. *)
Fixpoint requesters (k : Key) (evs : list Event) : list Caller :=
  match evs with
  | [] => []
  | Request c k' :: rest =>
      if decide (k' = k) then c :: requesters k rest else requesters k rest
  | Complete _ _ :: rest => requesters k rest
  end.

(** No adapter call for [k] returns during the sequence. *)
Fixpoint pending (k : Key) (evs : list Event) : bool :=
  match evs with
  | [] => true
  | Request _ _ :: rest => pending k rest
  | Complete k' _ :: rest => negb (bool_decide (k' = k)) && pending k rest
  end.

Definition count (k : Key) (l : list Key) : nat :=
  length (filter (fun k' => k' = k) l).

(** What has been delivered for key [k]. *)
Definition delivered_for (k : Key) (st : State) : list (Caller * Key * Result) :=
  filter (fun d => d.1.2 = k) (delivered st).

Definition key_of (ev : Event) : Key :=
  match ev with
  | Request _ k => k
  | Complete k _ => k
  end.

(** Calls issued and not yet returned for [k]: one when a computation is
    under way, none otherwise. *)
Definition outstanding (k : Key) (st : State) : nat :=
  match in_flight st !! k with
  | Some _ => 1
  | None => 0
  end.

End CacheStore.

(** ** The stage executor and the pipeline scheduler *)

Module Engine.
Local Open Scope list_scope.
Local Open Scope nat_scope.

(** Modelled from the spec: the status of a job. *)
Inductive Status := queued | running | completed | failed.

#[global] Instance EngineStatus_eq_dec : EqDecision Status.
Proof. solve_decision. Defined.

Definition terminal (s : Status) : bool :=
  match s with
  | completed | failed => true
  | queued | running => false
  end.

(** Modelled from the spec: a stage definition. *)
Record Stage := mkStage {
  name : string;
  fans_out : bool;     (* over the job's sub-units, or runs once *)
  cacheable : bool
}.

(** Modelled from the spec: the stage order of the dub pipeline (the
    scheduler is missing from the sources). *)
Definition dub_pipeline : list Stage :=
  [ mkStage "acquire source" false true;
    mkStage "extract audio" false false;
    mkStage "transcribe" true true;
    mkStage "normalize transcript" false false;
    mkStage "translate" true true;
    mkStage "synthesize speech" true true;
    mkStage "render" false false;
    mkStage "validate" false false ].

(** Modelled from the spec: the stage order of the story pipeline, with
    its optional last stage. *)
Definition story_pipeline (publish : bool) : list Stage :=
  [ mkStage "acquire story" false true;
    mkStage "scene breakdown" false false;
    mkStage "synthesize image" true true;
    mkStage "synthesize narration" true true;
    mkStage "render" false false;
    mkStage "validate" false false ] ++
  (if publish then [mkStage "publish" false false] else []).

(** Modelled from the spec: how an adapter call ends, as the stage
    executor classifies it; a failed check of the validation stage is
    [CheckFailed]. *)
Inductive Outcome := Success | Retryable | Fatal | CheckFailed.

(** Modelled from the spec: what the adapter itself does with a call,
    reply after some time or never. *)
Inductive Reply :=
| Replied (after : nat) (o : Outcome)
| Stalled.

(** Modelled from the spec: the fixed limits of the executor. *)
Record Limits := mkLimits {
  call_timeout : nat;
  max_attempts : nat;
  backoff_base : nat;
  backoff_cap : nat
}.

(** Modelled from the spec: a call under the per-call timeout (the stage
    executor is missing from the sources): the time it takes and its
    outcome; a timeout is a retryable failure. *)
Definition bounded_call (lim : Limits) (r : Reply) : nat * Outcome :=
  match r with
  | Replied after o =>
      if after <=? call_timeout lim then (after, o)
      else (call_timeout lim, Retryable)
  | Stalled => (call_timeout lim, Retryable)
  end.

(** Modelled from the spec: capped exponential backoff before the next
    attempt. *)
Definition backoff (lim : Limits) (attempt : nat) : nat :=
  Nat.min (backoff_cap lim) (backoff_base lim * 2 ^ attempt).

(** Modelled from the spec: everything outside the engine, the reply of
    the adapter to the n-th call, the stages whose output the cache store
    holds, and whether cancellation has been requested once n calls have
    been made. *)
Record World := mkWorld {
  adapter : nat -> Reply;
  cached : string -> bool;
  cancel_requested : nat -> bool
}.

(** Modelled from the spec: a job in the registry, with the position of
    its worker in the pipeline. *)
Record Job := mkJob {
  sub_units : nat;              (* chunks or scenes of this job *)
  status : Status;
  stage_index : nat;
  unit_index : nat;             (* next sub-unit of the current stage *)
  attempt : nat;                (* failed attempts at the current call *)
  calls : nat;                  (* adapter calls made so far *)
  elapsed : nat;                (* time spent in calls and backoff *)
  log : list string;
  failure_reason : option string
}.

Definition submit (sub_units : nat) : Job :=
  mkJob sub_units queued 0 0 0 0 0 [] None.

Definition unit_count (stg : Stage) (units : nat) : nat :=
  if fans_out stg then units else 1.

Definition fail (reason : string) (spent : nat) (called : nat) (j : Job) : Job :=
  mkJob (sub_units j) failed (stage_index j) (unit_index j) (attempt j)
        (calls j + called) (elapsed j + spent) (log j) (Some reason).

Definition next_stage (line : string) (j : Job) : Job :=
  mkJob (sub_units j) running (S (stage_index j)) 0 0
        (calls j) (elapsed j) (log j ++ [line]) None.

(** Modelled from the spec: one move of the scheduler and stage executor
    on a job (the engine is missing from the sources).  A queued job
    starts; a running job past its last stage completes; before a stage
    and before each sub-unit the cancellation flag is checked; a cached
    stage is skipped; otherwise the adapter is called once under the
    timeout, a retryable failure is retried after backoff until the
    attempt limit, and a fatal failure or a failed check fails the job.
    A terminal job does not change. *)
Definition step (w : World) (lim : Limits) (plan : list Stage) (j : Job) : Job :=
  match status j with
  | queued =>
      mkJob (sub_units j) running (stage_index j) (unit_index j) (attempt j)
            (calls j) (elapsed j) (log j) (failure_reason j)
  | completed | failed => j
  | running =>
      match plan !! stage_index j with
      | None =>
          mkJob (sub_units j) completed (stage_index j) (unit_index j) (attempt j)
                (calls j) (elapsed j) (log j) None
      | Some stg =>
          if (attempt j =? 0) && cancel_requested w (calls j)
          then fail "cancelled" 0 0 j
          else if (unit_index j =? 0) && (attempt j =? 0)
                  && cacheable stg && cached w (name stg)
          then next_stage (name stg +:+ ": reused from cache") j
          else if unit_count stg (sub_units j) <=? unit_index j
          then next_stage (name stg +:+ ": done") j
          else
            let call := bounded_call lim (adapter w (calls j)) in
            match snd call with
            | Success =>
                mkJob (sub_units j) running (stage_index j) (S (unit_index j)) 0
                      (S (calls j)) (elapsed j + fst call) (log j) None
            | Retryable =>
                if S (attempt j) <? max_attempts lim
                then mkJob (sub_units j) running (stage_index j) (unit_index j)
                           (S (attempt j)) (S (calls j))
                           (elapsed j + fst call + backoff lim (attempt j))
                           (log j) None
                else fail (name stg +:+ ": retries exhausted") (fst call) 1 j
            | Fatal => fail (name stg +:+ ": fatal adapter failure") (fst call) 1 j
            | CheckFailed => fail (name stg +:+ ": check failed") (fst call) 1 j
            end
      end
  end.

Fixpoint steps (n : nat) (w : World) (lim : Limits) (plan : list Stage) (j : Job) : Job :=
  match n with
  | 0 => j
  | S m => steps m w lim plan (step w lim plan j)
  end.

(** The moves a stage can take at most: every sub-unit every attempt,
    and the move to the next stage. *)
Definition stage_budget (lim : Limits) (units : nat) : nat :=
  units * S (max_attempts lim) + max_attempts lim + 1.

(** An upper bound on the moves a running job has left: the stages after
    the current one, what is left of the current one, and the move that
    completes the job. *)
Definition running_budget (lim : Limits) (plan : list Stage) (j : Job) : nat :=
  sum_list (map (fun stg => stage_budget lim (unit_count stg (sub_units j)))
                (drop (S (stage_index j)) plan)) +
  match plan !! stage_index j with
  | Some stg =>
      (unit_count stg (sub_units j) - unit_index j) * S (max_attempts lim)
      + (max_attempts lim - attempt j) + 1
  | None => 0
  end + 1.

(** An upper bound on the moves left before the job is terminal. *)
Definition budget (lim : Limits) (plan : list Stage) (j : Job) : nat :=
  match status j with
  | completed | failed => 0
  | queued => S (running_budget lim plan j)
  | running => running_budget lim plan j
  end.

End Engine.

(** * Sample inputs and auxiliary definitions *)

Module Samples.
Import Auth Api.

(** The browser after [logout()] and the redirect to the login page. *)
Definition logged_out (b : Browser) : Browser :=
  mkBrowser (delete EMAIL_KEY (delete TOKEN_KEY (localStorage b))) "/login".

(** The browser used in the examples: nothing stored, at the home page. *)
Definition fresh_browser : Browser := mkBrowser ∅ "/".

(** The hook of a progress component just mounted for job ["job-1"]. *)
Definition mounted_hook : UseJobSSE.State := UseJobSSE.effect (Some "job-1") fresh_browser UseJobSSE.initial.

(** A browser holding a session. *)
Definition signed_in_browser : Browser :=
  mkBrowser (<[EMAIL_KEY := "asha@example.org"]> (<[TOKEN_KEY := "t0k3n"]> ∅)) "/".

Definition dub_request : DubParams.t :=
  DubParams.mk (Some "https://youtube.com/shorts/abc") None "en-IN" "hi-IN" None None.

Definition story_request : StoryParams.t :=
  StoryParams.mk None (Some "aesop") None "hi-IN" None (Some "default") (Some true) None.

(** A server whose every answer is the given response. *)
Definition always (res : Response) : Server := fun _ => Responded res.

Definition session_expired : Response :=
  mkResponse 401 (BodyJson (JsObject [("detail", JsString "Not authenticated")])).

Definition missing_url : Response :=
  mkResponse 400 (BodyJson (JsObject [("detail", JsString "Provide url or file_path")])).

Definition accepted : Response :=
  mkResponse 200 (BodyJson (JsObject [("job_id", JsString "job-1");
                                      ("status", JsString "queued")])).

Definition sample_config : Page.Config :=
  Page.mkConfig [("hi-IN", "Hindi"); ("te-IN", "Telugu")] ["kavya"]
                ["aesop"; "panchatantra"] ["default"; "calm"].

(** The key of a transcription shared by every dub of one source. *)
Definition transcript_key : CacheStore.Key := ("transcribe", "9f2c41", None).

Definition translation_key : CacheStore.Key := ("translate", "9f2c41", Some "te-IN").

(** Three jobs ask for the same transcription before it is ready; one of
    them also asks for a translation in between. *)
Definition three_jobs : list CacheStore.Event :=
  [ CacheStore.Request 1 transcript_key;
    CacheStore.Request 2 transcript_key;
    CacheStore.Request 2 translation_key;
    CacheStore.Request 3 transcript_key ].

(** Adapters for the engine: one that always replies at once with
    success, one that never replies, one that fails twice with a
    retryable failure and then succeeds. *)
Definition prompt_world : Engine.World :=
  Engine.mkWorld (fun _ => Engine.Replied 1 Engine.Success) (fun _ => false) (fun _ => false).

Definition stalled_world : Engine.World :=
  Engine.mkWorld (fun _ => Engine.Stalled) (fun _ => false) (fun _ => false).

Definition flaky_world : Engine.World :=
  Engine.mkWorld
    (fun n => if (n <? 2)%nat then Engine.Replied 1 Engine.Retryable
              else Engine.Replied 1 Engine.Success)
    (fun _ => false) (fun _ => false).

Definition limits : Engine.Limits := Engine.mkLimits 30 3 1 8.

(** The page showing the progress of job ["job-1"], just submitted. *)
Definition started_app : App.State :=
  App.run signed_in_browser
          [App.Mount; App.ConfigLoaded sample_config; App.JobStarted "job-1"]
          App.initial.

Definition started_hook : UseJobSSE.State :=
  UseJobSSE.effect (Some "job-1") signed_in_browser UseJobSSE.initial.

End Samples.
Import Samples.

(** * More of the client *)

(** ** The login page ([app/login/page.tsx]) *)

Module LoginPage.
Import Auth Api.

Inductive Mode := login | register.

Definition mode_name (m : Mode) : string :=
  match m with
  | login => "login"
  | register => "register"
  end.

Record State := mkState {
  mode : Mode;
  email : string;
  password : string;
  error : option string;     (* [string | null] *)
  loading : bool
}.

Definition initial : State := mkState login "" "" None false.

Definition setError (m : option string) (st : State) : State :=
  mkState (mode st) (email st) (password st) m (loading st).
Definition setLoading (l : bool) (st : State) : State :=
  mkState (mode st) (email st) (password st) (error st) l.
Definition setMode (m : Mode) (st : State) : State :=
  mkState m (email st) (password st) (error st) (loading st).

(** The two buttons of the mode toggle: [setMode(...); setError(null)]. *)
Definition choose (m : Mode) (st : State) : State := setError None (setMode m st).

(** [JSON.stringify({ email, password })] *)
Definition credentials (st : State) : json :=
  JsObject [("email", JsString (email st)); ("password", JsString (password st))].

(** The string [localStorage.setItem] stores for a value: its string
    conversion, ["undefined"] for a property the response lacks; the
    conversion may throw. *)
Definition storage_string (v : option json) : result string :=
  match v with
  | Some x => to_string x
  | None => Returned "undefined"
  end.

(** [localStorage.setItem(key, v)] for a value of any type: nothing is
    stored when the conversion throws. *)
Definition setItem (key : string) (v : option json) : M unit :=
  s <- lift (storage_string v) ;;
  write (fun b => mkBrowser (<[key := s]> (localStorage b)) (location_href b)).

(** The call [saveAuth(data.token, data.email)] with what the response
    holds: the two [setItem] calls of [saveAuth], in its order. *)
Definition saveAuth_call (token email : option json) : M unit :=
  setItem TOKEN_KEY token ;;;
  setItem EMAIL_KEY email.

(** [router.push(path)], as the location it leads to. *)
Definition router_push (path : string) (b : Browser) : Browser :=
  mkBrowser (localStorage b) path.

(** The body of the [try] block of [handleSubmit]. *)
Definition attempt (server : Server) (st : State) : M unit :=
  res <- fetch server
    (mkRequest (API ++ "/auth/" ++ mode_name (mode st)) "POST" json_headers
               (Some (credentials st))) ;;
  if negb (ok res) then
    body <- res_json res ;;
    detail <- lift (get_prop body "detail") ;;
    throw (new_error detail (mode_name (mode st) ++ " failed"))
  else
    data <- res_json res ;;
    token <- lift (get_prop data "token") ;;
    email <- lift (get_prop data "email") ;;
    saveAuth_call token email ;;;
    write (router_push "/").

(** The error banner of the page: [{error && (...)}]. *)
Definition shows_error (st : State) : bool := truthy_opt (error st).

(** [handleSubmit]: the browser and the page's state when it is done. *)
Definition handleSubmit (server : Server) (st : State) (b : Browser)
  : Browser * State :=
  let st1 := setLoading true (setError None st) in
  match attempt server st b with
  | (b', Returned _) => (b', setLoading false st1)
  | (b', Threw err) => (b', setLoading false (setError (Some (exn_message err)) st1))
  end.

End LoginPage.

(** ** Notions used to state the further properties *)

Module Notions.
Import UseJobSSE.

(** An event of type ["done"] or ["error"]: one of the listeners it reaches
    closes the [EventSource]. *)
Definition closing (e : Event) : bool :=
  String.eqb (type e) "done" || String.eqb (type e) "error".

(** The status a closing event leaves. *)
Definition status_after (e : Event) : Status :=
  if String.eqb (type e) "done" && bool_decide (data e = JStr "completed")
  then Done else Failed.

(** The error cell a closing event leaves, given the one before it. *)
Definition error_after (e : Event) (before : jsval) : jsval :=
  if String.eqb (type e) "error" then data e else before.

(** The page shows the failure banner. *)
Definition shows_failure (st : Page.State) : bool :=
  match Page.view st with
  | Page.ProgressCard _ true => true
  | _ => false
  end.

(** The string is a sequence of white-space characters and nothing else,
    read from its start. *)
Fixpoint blank (s : string) : bool :=
  match s with
  | EmptyString => true
  | String a r1 =>
      if white_space_1 a then blank r1
      else match r1 with
           | EmptyString => false
           | String b r2 =>
               if white_space_2 a b then blank r2
               else match r2 with
                    | EmptyString => false
                    | String c r3 => white_space_3 a b c && blank r3
                    end
           end
  end.

(** Some event of the sequence is of type ["open"]. *)
Definition has_open (evs : list UseJobSSE.Event) : bool :=
  existsb (fun e => String.eqb (type e) "open") evs.

(** A fresh job's stream cut off by a warning, and one that runs to its
    end. *)
Definition warned_stream : list UseJobSSE.Event :=
  [ConnOpen; ServerSent "message" "transcribing";
   ServerSent "error" "rate limited"; ServerSent "done" "completed"].

Definition clean_prefix : list UseJobSSE.Event :=
  [ConnOpen; ServerSent "message" "transcribing"; ServerSent "message" "translating"].

(** The page after job ["job-1"] has run to its end and completed. *)
Definition finished_app : App.State :=
  App.run signed_in_browser
          [App.Mount; App.ConfigLoaded sample_config; App.JobStarted "job-1";
           App.Stream ConnOpen; App.Stream (ServerSent "message" "transcribing");
           App.Stream (ServerSent "done" "completed")]
          App.initial.

(** The same page after "Start new job": the form again, with the cells
    of the old job still set. *)
Definition returned_app : App.State :=
  App.step signed_in_browser App.StartNewJob finished_app.

(** The answer to a successful login. *)
Definition signed_in : Api.Response :=
  Api.mkResponse 200 (Api.BodyJson (JsObject [("token", JsString "t0k3n");
                                              ("email", JsString "asha@example.org")])).

(** A string given by its bytes. *)
Definition bytes (l : list nat) : string :=
  fold_right (fun n s => String (Ascii.ascii_of_nat n) s) EmptyString l.

(** The number of bytes of the white-space character the string starts
    with, [0] when it starts with none. *)
Definition white_space_prefix (s : string) : nat :=
  match s with
  | EmptyString => 0
  | String a r1 =>
      if white_space_1 a then 1
      else match r1 with
           | EmptyString => 0
           | String b r2 =>
               if white_space_2 a b then 2
               else match r2 with
                    | EmptyString => 0
                    | String c _ => if white_space_3 a b c then 3 else 0
                    end
           end
  end.

(** The string without its first [n] bytes. *)
Fixpoint skip (n : nat) (s : string) : string :=
  match n, s with
  | S m, String _ rest => skip m rest
  | _, _ => s
  end.

End Notions.

(** * Properties of the client *)

(** ** The progress hook *)

Section HookFacts.
Import UseJobSSE.

(** Dispatch written out: each listener in turn tests the event's type. *)
Lemma fire_unfold (e : Event) (st : State) :
  fire e st =
  let s1 := if String.eqb "open" (type e) then onopen e st else st in
  let s2 := if String.eqb "message" (type e) then onmessage e s1 else s1 in
  let s3 := if String.eqb "error" (type e) then error_listener e s2 else s2 in
  let s4 := if String.eqb "done" (type e) then done_listener e s3 else s3 in
  if String.eqb "error" (type e) then onerror e s4 else s4.
Proof. reflexivity. Qed.

(** The listeners an event reaches, by its type. *)
Lemma fire_open (e : Event) (st : State) :
  type e = "open" -> fire e st = onopen e st.
Proof. intros H. rewrite fire_unfold, H. reflexivity. Qed.

Lemma fire_message (e : Event) (st : State) :
  type e = "message" -> fire e st = onmessage e st.
Proof. intros H. rewrite fire_unfold, H. reflexivity. Qed.

Lemma fire_error (e : Event) (st : State) :
  type e = "error" -> fire e st = onerror e (error_listener e st).
Proof. intros H. rewrite fire_unfold, H. reflexivity. Qed.

Lemma fire_done (e : Event) (st : State) :
  type e = "done" -> fire e st = done_listener e st.
Proof. intros H. rewrite fire_unfold, H. reflexivity. Qed.

Lemma fire_other (e : Event) (st : State) :
  type e <> "open" -> type e <> "message" ->
  type e <> "error" -> type e <> "done" -> fire e st = st.
Proof.
  intros Ho Hm He Hd. rewrite fire_unfold. cbv zeta.
  repeat match goal with
         | |- context [String.eqb ?a (type e)] =>
             destruct (String.eqb_spec a (type e)) as [Heq | _];
             [ symmetry in Heq; contradiction | ]
         end.
  reflexivity.
Qed.

(** The five ways an event can be typed. *)
Lemma type_cases (e : Event) :
  type e = "open" \/ type e = "message" \/ type e = "error" \/ type e = "done" \/
  (type e <> "open" /\ type e <> "message" /\ type e <> "error" /\ type e <> "done").
Proof.
  destruct (decide (type e = "open")); [tauto |].
  destruct (decide (type e = "message")); [tauto |].
  destruct (decide (type e = "error")); [tauto |].
  destruct (decide (type e = "done")); tauto.
Qed.

Lemma lines_fire (e : Event) (st : State) :
  lines (fire e st) =
  if bool_decide (type e = "message") then (lines st ++ [data e])%list else lines st.
Proof.
  destruct (type_cases e) as [H | [H | [H | [H | (Ho & Hm & He & Hd)]]]].
  - rewrite fire_open by exact H. rewrite H. reflexivity.
  - rewrite fire_message by exact H. rewrite H. reflexivity.
  - rewrite fire_error by exact H. rewrite H. reflexivity.
  - rewrite fire_done by exact H. rewrite H. reflexivity.
  - rewrite fire_other by assumption.
    rewrite bool_decide_eq_false_2 by exact Hm. reflexivity.
Qed.

Lemma dispatch_closed (e : Event) (st : State) :
  is_open st = false -> dispatch e st = st.
Proof. intros H. unfold dispatch. rewrite H. reflexivity. Qed.

Lemma run_closed (evs : list Event) (st : State) :
  is_open st = false -> run evs st = st.
Proof.
  induction evs as [| e evs IH]; intros H; simpl; [reflexivity |].
  rewrite dispatch_closed by exact H. apply IH, H.
Qed.

Lemma received_closed (evs : list Event) (st : State) :
  is_open st = false -> received evs st = [].
Proof.
  induction evs as [| e evs IH]; intros H; simpl; [reflexivity |].
  rewrite H, dispatch_closed by exact H. apply IH, H.
Qed.

Lemma is_open_close (st : State) : is_open (close st) = false.
Proof. destruct st as [l s e [[u c] |]]; reflexivity. Qed.

Lemma lines_dispatch (e : Event) (st : State) :
  lines (dispatch e st) =
  if is_open st && bool_decide (type e = "message")
  then (lines st ++ [data e])%list else lines st.
Proof.
  unfold dispatch. destruct (is_open st); simpl; [apply lines_fire | reflexivity].
Qed.

Lemma lines_run (evs : list Event) (st : State) :
  lines (run evs st) = (lines st ++ message_data (received evs st))%list.
Proof.
  revert st. induction evs as [| e evs IH]; intros st; simpl.
  - unfold message_data. simpl. rewrite app_nil_r. reflexivity.
  - rewrite IH, lines_dispatch.
    destruct (is_open st) eqn:Hopen; simpl; [| reflexivity].
    unfold message_data. rewrite filter_cons.
    destruct (decide (type e = "message")) as [Hm | Hm].
    + rewrite bool_decide_eq_true_2 by exact Hm. simpl.
      rewrite <- app_assoc. reflexivity.
    + rewrite bool_decide_eq_false_2 by exact Hm. reflexivity.
Qed.

End HookFacts.

Section HookClaims.
Import UseJobSSE.

Lemma lines_effect_initial (jobId : option string) (b : Auth.Browser) :
  lines (effect jobId b initial) = [].
Proof.
  destruct jobId as [id |]; simpl; [| reflexivity].
  destruct (truthy_string id); reflexivity.
Qed.

Lemma done_listener_status (d : string) (st : State) :
  status (done_listener (ServerSent "done" d) st) =
  if decide (d = "completed") then Done else Failed.
Proof.
  unfold done_listener. simpl.
  destruct (decide (JStr d = JStr "completed")) as [H | H];
    destruct (decide (d = "completed")) as [H' | H']; try reflexivity.
  - inversion H. contradiction.
  - subst d. contradiction.
Qed.

(** The server's stream ends in its only [done] event. *)
Lemma stream_shape (j : ProgressStream.Job) (joined : nat) :
  exists before,
    ProgressStream.stream j joined =
      (before ++ [ServerSent "done" (ProgressStream.payload (ProgressStream.outcome j))])%list
    /\ Forall (fun e => type e <> "done") before.
Proof.
  unfold ProgressStream.stream. eexists. split.
  - rewrite app_assoc. reflexivity.
  - apply Forall_app. split.
    + apply Forall_forall. intros e He.
      apply list_elem_of_fmap in He as (l & -> & _). simpl. discriminate.
    + apply Forall_forall. intros e He.
      apply list_elem_of_fmap in He as (o & -> & _).
      destruct o; simpl; discriminate.
Qed.

Lemma count_done_stream (j : ProgressStream.Job) (joined : nat) :
  length (filter (fun e => type e = "done") (ProgressStream.stream j joined)) = 1.
Proof.
  destruct (stream_shape j joined) as (before & -> & Hb).
  rewrite filter_app, length_app.
  replace (filter (fun e => type e = "done") before) with (@nil Event).
  - reflexivity.
  - symmetry. induction Hb as [| e l He _ IH]; [reflexivity |].
    rewrite filter_cons. destruct (decide (type e = "done")); [contradiction | exact IH].
Qed.

(** C1: the server's stream for a job carries exactly one [done] event,
    it is the last event of the stream, and its payload is ["completed"]
    or ["failed"]; when the client receives a [done] event, its status
    becomes [Done] exactly when the payload is ["completed"] and
    [Failed] otherwise, the [EventSource] is closed, lines and error are
    untouched, no later event changes the state, and the progress
    component reports the matching outcome to the page. *)
Theorem terminal_done_event
    (j : ProgressStream.Job) (joined : nat)
    (d : string) (st : State) (later : list Event) :
  is_open st = true ->
  length (filter (fun e => type e = "done") (ProgressStream.stream j joined)) = 1
  /\ last (ProgressStream.stream j joined)
     = Some (ServerSent "done" (ProgressStream.payload (ProgressStream.outcome j)))
  /\ (ProgressStream.payload (ProgressStream.outcome j) = "completed"
      \/ ProgressStream.payload (ProgressStream.outcome j) = "failed")
  /\ let st' := dispatch (ServerSent "done" d) st in
     status st' = (if decide (d = "completed") then Done else Failed)
     /\ is_open st' = false
     /\ lines st' = lines st
     /\ error st' = error st
     /\ run later st' = st'
     /\ JobProgress.status_effect (status st')
        = [if decide (d = "completed") then JobProgress.completed
           else JobProgress.failed].
Proof.
  intros Hopen. split; [apply count_done_stream |].
  split.
  { destruct (stream_shape j joined) as (before & -> & _). apply last_snoc. }
  split.
  { destruct (ProgressStream.outcome j); [left | right]; reflexivity. }
  cbv zeta. unfold dispatch. rewrite Hopen.
  rewrite fire_done by reflexivity.
  split; [apply done_listener_status |].
  assert (Hclosed : is_open (done_listener (ServerSent "done" d) st) = false)
    by apply is_open_close.
  split; [exact Hclosed |].
  split; [reflexivity |].
  split; [reflexivity |].
  split; [apply run_closed, Hclosed |].
  rewrite done_listener_status. destruct (decide (d = "completed")); reflexivity.
Qed.

Lemma terminal_done_event_witness :
  is_open mounted_hook = true
  /\ status (dispatch (ServerSent "done" "completed") mounted_hook) = Done
  /\ status (dispatch (ServerSent "done" "failed") mounted_hook) = Failed.
Proof.
  split; [reflexivity |].
  split.
  - exact (proj1 (proj2 (proj2 (proj2
      (terminal_done_event (ProgressStream.mkJob [] JobProgress.completed) 0
         "completed" mounted_hook [] eq_refl))))).
  - exact (proj1 (proj2 (proj2 (proj2
      (terminal_done_event (ProgressStream.mkJob [] JobProgress.failed) 0
         "failed" mounted_hook [] eq_refl))))).
Defined.

(** C2: the client's list of progress lines is the data of the message
    events it received, in arrival order; a message event received
    appends its data at the end, and no other event changes the list. *)
Theorem progress_lines_are_received_messages
    (jobId : option string) (b : Auth.Browser)
    (evs : list Event) (e : Event) (st : State) :
  lines (run evs (effect jobId b initial))
    = message_data (received evs (effect jobId b initial))
  /\ lines (run evs st) = (lines st ++ message_data (received evs st))%list
  /\ lines (dispatch e st) =
       if is_open st && bool_decide (type e = "message")
       then (lines st ++ [data e])%list else lines st.
Proof.
  split; [| split].
  - rewrite lines_run, lines_effect_initial. reflexivity.
  - apply lines_run.
  - apply lines_dispatch.
Qed.

(** C6 (what the code does): a server event named [error] reaches both
    listeners registered for the type ["error"], the one that records
    the message and [onerror]; the message is recorded and the lines are
    kept, but the status becomes [Failed] and the stream is closed, so
    the log line that follows is never shown. *)
Theorem named_error_event_closes_stream :
  let st := run [ConnOpen; ServerSent "message" "transcribing"] mounted_hook in
  let st' := dispatch (ServerSent "error" "rate limited, retrying") st in
  (status st = Streaming /\ is_open st = true)
  /\ error st' = JStr "rate limited, retrying"
  /\ lines st' = lines st
  /\ status st' = Failed
  /\ is_open st' = false
  /\ lines (run [ServerSent "message" "translating"; ServerSent "done" "completed"] st')
     = [JStr "transcribing"].
Proof. repeat split; reflexivity. Qed.

End HookClaims.

(** ** The protocol end to end, for a job without warnings *)

Section StreamFacts.
Import UseJobSSE.
Local Open Scope list_scope.

Lemma run_app (evs1 evs2 : list Event) (st : State) :
  run (evs1 ++ evs2) st = run evs2 (run evs1 st).
Proof.
  revert st. induction evs1 as [| e evs1 IH]; intros st; simpl; [reflexivity | apply IH].
Qed.

Lemma run_messages (ls : list string) (st : State) :
  is_open st = true ->
  run (map (ServerSent "message") ls) st
  = mkState (lines st ++ map JStr ls) (status st) (error st) (es st).
Proof.
  revert st. induction ls as [| l ls IH]; intros st Hopen; simpl.
  - rewrite app_nil_r. destruct st; reflexivity.
  - unfold dispatch. rewrite Hopen. rewrite fire_message by reflexivity.
    rewrite IH by exact Hopen. simpl. rewrite <- app_assoc. reflexivity.
Qed.

Lemma log_app (a b : list ProgressStream.Occurrence) :
  ProgressStream.log (a ++ b) = ProgressStream.log a ++ ProgressStream.log b.
Proof.
  induction a as [| [l | m] a IH]; simpl; [reflexivity | rewrite IH; reflexivity | exact IH].
Qed.

Lemma live_without_warnings (occs : list ProgressStream.Occurrence) :
  Forall (fun o => match o with
                   | ProgressStream.Progress _ => True
                   | ProgressStream.Warning _ => False
                   end) occs ->
  map ProgressStream.live occs = map (ServerSent "message") (ProgressStream.log occs).
Proof.
  induction 1 as [| [l | m] occs Ho _ IH]; simpl; [reflexivity | | contradiction].
  rewrite IH. reflexivity.
Qed.

(** Whenever the subscriber joins, replay followed by the live events
    gives the client the job's whole log, in order, and then the outcome:
    the hook ends closed, in status [Done] for a completed job and
    [Failed] for a failed one. *)
Lemma stream_without_warnings
    (j : ProgressStream.Job) (joined : nat) (st : State) :
  is_open st = true ->
  Forall (fun o => match o with
                   | ProgressStream.Progress _ => True
                   | ProgressStream.Warning _ => False
                   end) (ProgressStream.occurrences j) ->
  let st' := run (ProgressStream.stream j joined) st in
  lines st' = lines st ++ map JStr (ProgressStream.log (ProgressStream.occurrences j))
  /\ status st' = match ProgressStream.outcome j with
                  | JobProgress.completed => Done
                  | JobProgress.failed => Failed
                  end
  /\ is_open st' = false.
Proof.
  intros Hopen Hfree. cbv zeta. unfold ProgressStream.stream.
  rewrite live_without_warnings by (apply Forall_drop, Hfree).
  rewrite app_assoc, <- map_app, <- log_app, take_drop.
  rewrite run_app, run_messages by exact Hopen.
  set (st1 := mkState _ _ _ _).
  assert (Hopen1 : is_open st1 = true) by exact Hopen.
  simpl. unfold dispatch. rewrite Hopen1. rewrite fire_done by reflexivity.
  split; [reflexivity |]. split; [| apply is_open_close].
  destruct (ProgressStream.outcome j); reflexivity.
Qed.

End StreamFacts.

(** ** The API client *)

Section ApiFacts.
Import Auth Api.

Lemma handleResponse_unauthorized (res : Response) (b : Browser) :
  status res = 401%Z \/ status res = 403%Z ->
  handleResponse res b = (logged_out b, Threw (Error "Session expired")).
Proof.
  intros H. unfold handleResponse.
  replace ((status res =? 401)%Z || (status res =? 403)%Z) with true
    by (destruct H as [-> | ->]; reflexivity).
  reflexivity.
Qed.

Lemma handleResponse_other (res : Response) (b : Browser) :
  status res <> 401%Z -> status res <> 403%Z ->
  handleResponse res b = (b, Returned res).
Proof.
  intros H1 H3. unfold handleResponse.
  apply Z.eqb_neq in H1. apply Z.eqb_neq in H3. rewrite H1, H3. reflexivity.
Qed.

Lemma logged_out_forgets (b : Browser) :
  getToken (logged_out b) = None /\ getEmail (logged_out b) = None.
Proof.
  unfold getToken, getEmail, logged_out. simpl. split.
  - rewrite lookup_delete_ne by discriminate. apply lookup_delete_eq.
  - apply lookup_delete_eq.
Qed.

Variable server : Server.
Variable res : Response.
Hypothesis answers : forall req, server req = Responded res.

Lemma submitDub_answered (p : DubParams.t) (b : Browser) :
  submitDub server p b =
  (r <- handleResponse res ;; reject_or_parse "Failed to submit dub job" r) b.
Proof. unfold submitDub, bind, read, fetch. rewrite answers. reflexivity. Qed.

Lemma submitStory_answered (p : StoryParams.t) (b : Browser) :
  submitStory server p b =
  (r <- handleResponse res ;; reject_or_parse "Failed to submit story job" r) b.
Proof. unfold submitStory, bind, read, fetch. rewrite answers. reflexivity. Qed.

Lemma getJob_answered (jobId : string) (b : Browser) :
  getJob server jobId b =
  (r <- handleResponse res ;;
   if negb (ok r) then throw (Error "Failed to fetch job") else res_json r) b.
Proof. unfold getJob, bind, read, fetch. rewrite answers. reflexivity. Qed.

(** A response that is not OK never makes [reject_or_parse] return. *)
Lemma reject_or_parse_throws (fallback : string) (b : Browser) :
  ok res = false ->
  exists e, reject_or_parse fallback res b = (b, Threw e).
Proof.
  intros Hok. unfold reject_or_parse, bind, res_json, lift. rewrite Hok. simpl.
  destruct (body res) as [v | m]; simpl; [| eauto].
  destruct (get_prop v "detail") as [d | e]; simpl; eauto.
Qed.

Lemma reject_or_parse_detail (fallback : string) (b : Browser) (v : json) (detail : option json) :
  ok res = false -> body res = BodyJson v -> get_prop v "detail" = Returned detail ->
  reject_or_parse fallback res b = (b, Threw (new_error detail fallback)).
Proof.
  intros Hok Hbody Hd. unfold reject_or_parse, bind, res_json, lift.
  rewrite Hok, Hbody. simpl. rewrite Hd. reflexivity.
Qed.

Lemma submitDub_rejected (p : DubParams.t) (b : Browser) :
  ok res = false -> exists b' e, submitDub server p b = (b', Threw e).
Proof.
  intros Hok. rewrite submitDub_answered. unfold bind.
  destruct (handleResponse res b) as [b' [r | e]] eqn:Hh; [| eauto].
  unfold handleResponse in Hh.
  destruct ((status res =? 401)%Z || (status res =? 403)%Z); [discriminate |].
  injection Hh as Hb Hr. rewrite <- Hr.
  destruct (reject_or_parse_throws "Failed to submit dub job" b' Hok) as [e ->]. eauto.
Qed.

Lemma submitStory_rejected (p : StoryParams.t) (b : Browser) :
  ok res = false -> exists b' e, submitStory server p b = (b', Threw e).
Proof.
  intros Hok. rewrite submitStory_answered. unfold bind.
  destruct (handleResponse res b) as [b' [r | e]] eqn:Hh; [| eauto].
  unfold handleResponse in Hh.
  destruct ((status res =? 401)%Z || (status res =? 403)%Z); [discriminate |].
  injection Hh as Hb Hr. rewrite <- Hr.
  destruct (reject_or_parse_throws "Failed to submit story job" b' Hok) as [e ->]. eauto.
Qed.

Lemma dub_form_no_call (st : DubForm.State) (b : Browser) :
  ok res = false -> snd (snd (DubForm.handleSubmit server st b)) = [].
Proof.
  intros Hok. unfold DubForm.handleSubmit, bind.
  destruct (submitDub_rejected (DubForm.params st) b Hok) as (b' & e & ->).
  reflexivity.
Qed.

Lemma story_form_no_call (st : StoryForm.State) (b : Browser) :
  ok res = false -> snd (snd (StoryForm.handleSubmit server st b)) = [].
Proof.
  intros Hok. unfold StoryForm.handleSubmit, bind.
  destruct (submitStory_rejected (StoryForm.params st) b Hok) as (b' & e & ->).
  reflexivity.
Qed.

End ApiFacts.

Section ApiClaims.
Import Auth Api.

(** C8: when the server answers 401 or 403, [handleResponse] removes the
    stored token and email, sets the location to the login page and
    throws, and so do [submitDub], [submitStory] and [getJob]: the
    response never reaches the caller.  For any other status
    [handleResponse] returns the response it was given and leaves the
    browser as it was. *)
Theorem unauthorized_response_logs_out
    (server : Server) (res : Response) (b : Browser)
    (dp : DubParams.t) (sp : StoryParams.t) (jobId : string) :
  (forall req, server req = Responded res) ->
  ((status res = 401%Z \/ status res = 403%Z) ->
     handleResponse res b = (logged_out b, Threw (Error "Session expired"))
     /\ getToken (logged_out b) = None
     /\ getEmail (logged_out b) = None
     /\ location_href (logged_out b) = "/login"
     /\ submitDub server dp b = (logged_out b, Threw (Error "Session expired"))
     /\ submitStory server sp b = (logged_out b, Threw (Error "Session expired"))
     /\ getJob server jobId b = (logged_out b, Threw (Error "Session expired")))
  /\ (status res <> 401%Z -> status res <> 403%Z ->
      handleResponse res b = (b, Returned res)).
Proof.
  intros Hserver. split.
  - intros Hst.
    pose proof (handleResponse_unauthorized res b Hst) as Hh.
    destruct (logged_out_forgets b) as [Ht He].
    repeat split; try assumption.
    + rewrite (submitDub_answered server res Hserver). unfold bind. rewrite Hh. reflexivity.
    + rewrite (submitStory_answered server res Hserver). unfold bind. rewrite Hh. reflexivity.
    + rewrite (getJob_answered server res Hserver). unfold bind. rewrite Hh. reflexivity.
  - apply handleResponse_other.
Qed.

Lemma unauthorized_response_logs_out_witness :
  submitDub (always session_expired) dub_request signed_in_browser
    = (logged_out signed_in_browser, Threw (Error "Session expired"))
  /\ getToken (logged_out signed_in_browser) = None
  /\ handleResponse accepted signed_in_browser = (signed_in_browser, Returned accepted).
Proof.
  destruct (unauthorized_response_logs_out (always session_expired) session_expired
              signed_in_browser dub_request story_request "job-1"
              (fun _ => eq_refl)) as [H _].
  destruct (H (or_introl eq_refl)) as (_ & Ht & _ & _ & Hd & _).
  destruct (unauthorized_response_logs_out (always accepted) accepted
              signed_in_browser dub_request story_request "job-1"
              (fun _ => eq_refl)) as [_ H'].
  split; [exact Hd |]. split; [exact Ht |].
  apply H'; discriminate.
Defined.

(** C7 as stated fails: a submission answered 401 with a detail message
    is not OK, yet the error thrown carries ["Session expired"], not the
    server's detail and not the fallback. *)
Lemma rejected_submission_counterexample :
  ok session_expired = false
  /\ get_prop (JsObject [("detail", JsString "Not authenticated")]) "detail"
     = Returned (Some (JsString "Not authenticated"))
  /\ snd (submitDub (always session_expired) dub_request signed_in_browser)
     = Threw (Error "Session expired")
  /\ snd (submitDub (always session_expired) dub_request signed_in_browser)
     <> Threw (new_error (Some (JsString "Not authenticated"))
                         "Failed to submit dub job")
  /\ snd (submitDub (always session_expired) dub_request signed_in_browser)
     <> Threw (Error "Failed to submit dub job").
Proof.
  assert (H : snd (submitDub (always session_expired) dub_request signed_in_browser)
              = Threw (Error "Session expired")).
  { rewrite (submitDub_answered (always session_expired) session_expired (fun _ => eq_refl)).
    reflexivity. }
  split; [reflexivity |]. split; [reflexivity |]. split; [exact H |].
  rewrite H. split; discriminate.
Qed.

(** C7 (amended): a dub or story submission whose response is not OK
    never returns a job: the submit function throws and the form does
    not call its job-started handler.  The error is ["Session expired"]
    when the status is 401 or 403; for any other status and a JSON body
    other than [null] its message is the body's [detail] converted to a
    string, or the fixed fallback message when [detail] is absent or
    falsy; a [detail] whose conversion throws gives that [TypeError]
    instead. *)
Theorem rejected_submission_throws
    (server : Server) (res : Response) (b : Browser)
    (dp : DubParams.t) (sp : StoryParams.t)
    (df : DubForm.State) (sf : StoryForm.State) :
  (forall req, server req = Responded res) ->
  ok res = false ->
  (exists b' e, submitDub server dp b = (b', Threw e))
  /\ (exists b' e, submitStory server sp b = (b', Threw e))
  /\ snd (snd (DubForm.handleSubmit server df b)) = []
  /\ snd (snd (StoryForm.handleSubmit server sf b)) = []
  /\ ((status res = 401%Z \/ status res = 403%Z) ->
      snd (submitDub server dp b) = Threw (Error "Session expired")
      /\ snd (submitStory server sp b) = Threw (Error "Session expired"))
  /\ (status res <> 401%Z -> status res <> 403%Z ->
      forall v detail,
        body res = BodyJson v -> get_prop v "detail" = Returned detail ->
        submitDub server dp b
          = (b, Threw (match or_else_message detail "Failed to submit dub job" with
                       | Returned message => Error message
                       | Threw e => e
                       end))
        /\ submitStory server sp b
          = (b, Threw (match or_else_message detail "Failed to submit story job" with
                       | Returned message => Error message
                       | Threw e => e
                       end))).
Proof.
  intros Hserver Hok.
  split; [exact (submitDub_rejected server res Hserver dp b Hok) |].
  split; [exact (submitStory_rejected server res Hserver sp b Hok) |].
  split; [exact (dub_form_no_call server res Hserver df b Hok) |].
  split; [exact (story_form_no_call server res Hserver sf b Hok) |].
  split.
  - intros Hst.
    rewrite (submitDub_answered server res Hserver),
            (submitStory_answered server res Hserver).
    unfold bind. rewrite (handleResponse_unauthorized res b Hst). split; reflexivity.
  - intros H1 H3 v detail Hbody Hdetail.
    rewrite (submitDub_answered server res Hserver),
            (submitStory_answered server res Hserver).
    unfold bind. rewrite (handleResponse_other res b H1 H3).
    rewrite !(reject_or_parse_detail res _ b v detail Hok Hbody Hdetail).
    split; reflexivity.
Qed.

Lemma rejected_submission_throws_witness :
  ok missing_url = false
  /\ submitDub (always missing_url) dub_request signed_in_browser
     = (signed_in_browser, Threw (Error "Provide url or file_path"))
  /\ snd (snd (DubForm.handleSubmit (always missing_url) DubForm.initial signed_in_browser)) = []
  /\ snd (submitStory (always session_expired) story_request signed_in_browser)
     = Threw (Error "Session expired").
Proof.
  pose proof (rejected_submission_throws (always missing_url) missing_url
                signed_in_browser dub_request story_request
                DubForm.initial StoryForm.initial (fun _ => eq_refl) eq_refl)
    as (_ & _ & Hform & _ & _ & Hdetail).
  pose proof (rejected_submission_throws (always session_expired) session_expired
                signed_in_browser dub_request story_request
                DubForm.initial StoryForm.initial (fun _ => eq_refl) eq_refl)
    as (_ & _ & _ & _ & Hexp & _).
  split; [reflexivity |].
  split.
  - refine (proj1 (Hdetail _ _ _ (Some (JsString "Provide url or file_path")) eq_refl eq_refl));
      discriminate.
  - split; [exact Hform |]. exact (proj2 (Hexp (or_introl eq_refl))).
Defined.

End ApiClaims.

(** ** The story form *)

Section FormClaims.
Import Api.

Lemma story_body_fields (st : StoryForm.State) (fields : list (string * json)) :
  stringify_story (StoryForm.params st) = JsObject fields ->
  assoc "text" fields = JsString <$> StoryParams.text (StoryForm.params st)
  /\ assoc "theme" fields = JsString <$> StoryParams.theme (StoryForm.params st)
  /\ assoc "keyword" fields = JsString <$> StoryParams.keyword (StoryForm.params st).
Proof.
  intros H. injection H as <-.
  unfold StoryForm.params, or_undefined. simpl.
  destruct (StoryForm.mode st); simpl;
    destruct (truthy_string (StoryForm.keyword st)); simpl;
    destruct (truthy_string (StoryForm.speaker st)); simpl; auto.
Qed.

(** C10: the object the story form submits has exactly one of [text] and
    [theme]: in text mode [text] is the pasted story and [theme] and
    [keyword] are undefined; in theme mode [text] is undefined, [theme] is
    the selected theme and [keyword] is present only when it is not
    empty.  The same holds of the JSON body written from the object, and
    an enabled submit button in text mode means the story is not blank. *)
Theorem story_submission_has_one_source (st : StoryForm.State) :
  let p := StoryForm.params st in
  match StoryForm.mode st with
  | StoryForm.text_mode =>
      StoryParams.text p = Some (StoryForm.text st)
      /\ StoryParams.theme p = None
      /\ StoryParams.keyword p = None
  | StoryForm.theme_mode =>
      StoryParams.text p = None
      /\ StoryParams.theme p = Some (StoryForm.theme st)
      /\ StoryParams.keyword p =
           (if String.eqb (StoryForm.keyword st) "" then None
            else Some (StoryForm.keyword st))
  end
  /\ (is_Some (StoryParams.text p) <-> StoryParams.theme p = None)
  /\ (forall fields, stringify_story p = JsObject fields ->
        assoc "text" fields = JsString <$> StoryParams.text p
        /\ assoc "theme" fields = JsString <$> StoryParams.theme p
        /\ assoc "keyword" fields = JsString <$> StoryParams.keyword p)
  /\ (StoryForm.disabled st = false -> StoryForm.mode st = StoryForm.text_mode ->
      trim (StoryForm.text st) <> "").
Proof.
  cbv zeta. split; [| split; [| split]].
  - unfold StoryForm.params, truthy_string. simpl.
    destruct (StoryForm.mode st); simpl; repeat split.
    destruct (String.eqb (StoryForm.keyword st) ""); reflexivity.
  - unfold StoryForm.params. simpl. destruct (StoryForm.mode st); simpl; split.
    + intros [x Hx]. discriminate.
    + discriminate.
    + reflexivity.
    + eauto.
  - apply story_body_fields.
  - unfold StoryForm.disabled, StoryForm.isValid. intros Hd Hm. rewrite Hm in Hd.
    apply orb_false_elim in Hd as [_ Hv]. apply negb_false_iff in Hv.
    intros Hblank. rewrite Hblank in Hv. discriminate.
Qed.

Lemma story_submission_has_one_source_witness :
  let st := StoryForm.mkState StoryForm.text_mode "aesop" "fox" "  A fox saw grapes. "
                              "hi-IN" "" "calm" false "" in
  StoryForm.disabled st = false
  /\ StoryParams.text (StoryForm.params st) = Some "  A fox saw grapes. "
  /\ StoryParams.theme (StoryForm.params st) = None
  /\ StoryParams.keyword (StoryForm.params st) = None
  /\ trim (StoryForm.text st) <> "".
Proof.
  cbv zeta.
  pose proof (story_submission_has_one_source
                (StoryForm.mkState StoryForm.text_mode "aesop" "fox" "  A fox saw grapes. "
                                   "hi-IN" "" "calm" false "")) as H.
  cbv zeta in H. destruct H as ((Ht & Hth & Hk) & _ & _ & Hvalid).
  split; [reflexivity |].
  split; [exact Ht |]. split; [exact Hth |]. split; [exact Hk |].
  apply Hvalid; reflexivity.
Defined.

End FormClaims.

(** ** The page and its download link *)

Section PageClaims.
Import UseJobSSE.

(** What one event does to an open hook: it stays open, its status kept or
    turned to [Streaming]; or it closes as [Done], on a [done] event that
    carries ["completed"]; or it closes as [Failed]. *)
Lemma dispatch_open_cases (e : Event) (st : State) :
  is_open st = true ->
  (is_open (dispatch e st) = true
   /\ (status (dispatch e st) = status st \/ status (dispatch e st) = Streaming))
  \/ (is_open (dispatch e st) = false /\ status (dispatch e st) = Done
      /\ type e = "done" /\ data e = JStr "completed")
  \/ (is_open (dispatch e st) = false /\ status (dispatch e st) = Failed).
Proof.
  intros Hopen. unfold dispatch. rewrite Hopen.
  destruct (type_cases e) as [H | [H | [H | [H | (Ho & Hm & He & Hd)]]]].
  - rewrite fire_open by exact H. left. split; [exact Hopen | right; reflexivity].
  - rewrite fire_message by exact H. left. split; [exact Hopen | left; reflexivity].
  - rewrite fire_error by exact H. right. right. split; [apply is_open_close | reflexivity].
  - rewrite fire_done by exact H. right. unfold done_listener.
    destruct (decide (data e = JStr "completed")) as [Hc | Hc].
    + left. split; [apply is_open_close |]. split; [reflexivity |]. split; assumption.
    + right. split; [apply is_open_close | reflexivity].
  - rewrite fire_other by assumption. left. split; [exact Hopen | left; reflexivity].
Qed.

Lemma consistent_step (b : Auth.Browser) (a : App.Action) (st : App.State) :
  App.consistent st -> App.consistent (App.step b a st).
Proof.
  intros Hc. destruct st as [h s]. destruct a as [| c | id | e |]; simpl.
  - (* Mount *)
    unfold App.consistent in *. simpl in *. unfold Page.mount_effect.
    destruct (negb (Auth.isLoggedIn b)); [exact Hc |].
    destruct s as [hook |]; [| exact Hc].
    destruct Hc as ((Ha & Hcfg) & Hrest). split; [split; [reflexivity | exact Hcfg] | exact Hrest].
  - (* ConfigLoaded *)
    unfold App.consistent in *. simpl in *.
    destruct s as [hook |]; [| exact Hc].
    destruct Hc as ((Ha & Hcfg) & Hrest). split; [split; [exact Ha | eauto] | exact Hrest].
  - (* JobStarted *)
    destruct (Page.view h) eqn:Hview; try exact Hc.
    unfold Page.view in Hview.
    destruct (negb (Page.authChecked h) || negb (bool_decide (is_Some (Page.config h))))
      eqn:Hready; [discriminate |].
    apply orb_false_elim in Hready as [Hauth Hcfg].
    apply negb_false_iff in Hauth. apply negb_false_iff, bool_decide_eq_true in Hcfg.
    unfold App.consistent, App.mount_progress, Page.view. simpl.
    rewrite Hauth. simpl. rewrite (bool_decide_eq_true_2 _ Hcfg). simpl.
    destruct (truthy_string id) eqn:Hid; simpl; [| reflexivity].
    split; [split; assumption |]. split; [reflexivity |].
    left. repeat split. left. reflexivity.
  - (* Stream *)
    destruct s as [hook |]; [| exact Hc].
    unfold App.consistent in *. simpl in *.
    destruct Hc as (Hready & Hid & [(Hopen & Hst & Hd & Hjs) | [(Hopen & Hrest) | (Hopen & Hrest)]]).
    + destruct (dispatch_open_cases e hook Hopen)
        as [(Ho' & Hs') | [(Ho' & Hs' & _) | (Ho' & Hs')]].
      * assert (Hcalls : (if decide (status (dispatch e hook) = status hook) then []
                          else JobProgress.status_effect (status (dispatch e hook))) = []).
        { destruct (decide (status (dispatch e hook) = status hook)); [reflexivity |].
          destruct Hs' as [Hs' | Hs']; [contradiction | rewrite Hs'; reflexivity]. }
        rewrite Hcalls. simpl.
        split; [exact Hready |]. split; [exact Hid |]. left.
        split; [exact Ho' |]. split; [| split; assumption].
        destruct Hs' as [-> | ->]; [exact Hst | right; reflexivity].
      * rewrite Hs'.
        destruct (decide (Done = status hook)) as [Heq | _];
          [destruct Hst as [Hst | Hst]; rewrite Hst in Heq; discriminate |].
        simpl. split; [exact Hready |]. split; [exact Hid |].
        right. left. repeat split. exact Ho'.
      * rewrite Hs'.
        destruct (decide (Failed = status hook)) as [Heq | _];
          [destruct Hst as [Hst | Hst]; rewrite Hst in Heq; discriminate |].
        simpl. split; [exact Hready |]. split; [exact Hid |].
        right. right. repeat split. exact Ho'.
    + rewrite (dispatch_closed e hook Hopen).
      destruct (decide (status hook = status hook)); [| contradiction]. simpl.
      split; [exact Hready |]. split; [exact Hid |]. right. left. split; assumption.
    + rewrite (dispatch_closed e hook Hopen).
      destruct (decide (status hook = status hook)); [| contradiction]. simpl.
      split; [exact Hready |]. split; [exact Hid |]. right. right. split; assumption.
  - (* StartNewJob *)
    destruct (Page.view h); try exact Hc. reflexivity.
Qed.

Lemma consistent_run (b : Auth.Browser) (acts : list App.Action) (st : App.State) :
  App.consistent st -> App.consistent (App.run b acts st).
Proof.
  revert st. induction acts as [| a acts IH]; intros st H; simpl; [exact H |].
  apply IH, consistent_step, H.
Qed.

(** [jobDone] is set exactly when [jobStatus] has left [running]. *)
Lemma done_iff_not_running_step (b : Auth.Browser) (a : App.Action) (st : App.State) :
  (Page.jobDone (App.home st) = true <-> Page.jobStatus (App.home st) <> Page.running) ->
  (Page.jobDone (App.home (App.step b a st)) = true
   <-> Page.jobStatus (App.home (App.step b a st)) <> Page.running).
Proof.
  intros H. destruct st as [h s]. destruct a as [| c | id | e |]; simpl in *.
  - unfold Page.mount_effect. destruct (negb (Auth.isLoggedIn b)); exact H.
  - exact H.
  - destruct (Page.view h); simpl; try exact H. split; [discriminate | congruence].
  - destruct s as [hook |]; simpl; [| exact H].
    destruct (decide (status (dispatch e hook) = status hook)); simpl; [exact H |].
    destruct (status (dispatch e hook)); simpl; try exact H;
      (split; [discriminate | reflexivity]).
  - destruct (Page.view h); simpl; exact H.
Qed.

Lemma done_iff_not_running (b : Auth.Browser) (acts : list App.Action) (st : App.State) :
  (Page.jobDone (App.home st) = true <-> Page.jobStatus (App.home st) <> Page.running) ->
  (Page.jobDone (App.home (App.run b acts st)) = true
   <-> Page.jobStatus (App.home (App.run b acts st)) <> Page.running).
Proof.
  revert st. induction acts as [| a acts IH]; intros st H; simpl; [exact H |].
  apply IH, done_iff_not_running_step, H.
Qed.

Lemma offers_download_iff (h : Page.State) :
  Page.offers_download h = true <->
  App.ready h /\ truthy_opt (Page.jobId h) = true
  /\ Page.jobDone h = true /\ Page.jobStatus h = Page.completed.
Proof.
  unfold Page.offers_download, Page.view, App.ready.
  destruct (Page.authChecked h); simpl.
  2: { split; [discriminate | intros ((Hf & _) & _); discriminate]. }
  destruct (bool_decide (is_Some (Page.config h))) eqn:Hcfg; simpl.
  2: { apply bool_decide_eq_false in Hcfg.
       split; [discriminate | intros ((_ & Hs) & _); contradiction]. }
  apply bool_decide_eq_true in Hcfg.
  destruct (truthy_opt (Page.jobId h)); simpl.
  2: { split; [discriminate | intros (_ & Hf & _); discriminate]. }
  destruct (Page.jobDone h); simpl.
  2: { split; [discriminate | intros (_ & _ & Hf & _); discriminate]. }
  destruct (decide (Page.jobStatus h = Page.completed)) as [Hs | Hs].
  - rewrite (bool_decide_eq_true_2 _ Hs). tauto.
  - rewrite (bool_decide_eq_false_2 _ Hs).
    split; [discriminate | intros (_ & _ & _ & Hf); contradiction].
Qed.

End PageClaims.

Section DownloadClaim.
Import UseJobSSE.

(** C5: in every state the page can reach, the download link is rendered
    exactly when the progress card is shown and its job has ended with
    outcome completed, which is exactly when the hook of the mounted
    progress component has ended in status [Done]; it is never rendered
    while the job status is running nor once it is failed, and the job
    counts as done exactly when its status has left running. *)
Theorem download_offered_only_when_completed
    (b : Auth.Browser) (acts : list App.Action) :
  let st := App.run b acts App.initial in
  (Page.offers_download (App.home st) = true
   <-> exists hook, App.sse st = Some hook /\ status hook = Done)
  /\ (Page.offers_download (App.home st) = true
      <-> App.ready (App.home st)
          /\ truthy_opt (Page.jobId (App.home st)) = true
          /\ Page.jobDone (App.home st) = true
          /\ Page.jobStatus (App.home st) = Page.completed)
  /\ (Page.jobStatus (App.home st) = Page.running ->
      Page.offers_download (App.home st) = false)
  /\ (Page.jobStatus (App.home st) = Page.failed ->
      Page.offers_download (App.home st) = false)
  /\ (Page.jobDone (App.home st) = true
      <-> Page.jobStatus (App.home st) <> Page.running).
Proof.
  cbv zeta.
  assert (Hc : App.consistent (App.run b acts App.initial))
    by (apply consistent_run; reflexivity).
  assert (Hd : Page.jobDone (App.home (App.run b acts App.initial)) = true
               <-> Page.jobStatus (App.home (App.run b acts App.initial)) <> Page.running).
  { apply done_iff_not_running. simpl. split; [discriminate | intros H; contradiction]. }
  set (st := App.run b acts App.initial) in *.
  pose proof (offers_download_iff (App.home st)) as Hiff.
  split; [| split; [exact Hiff | split; [| split; [| exact Hd]]]].
  - unfold App.consistent in Hc. destruct (App.sse st) as [hook |] eqn:Hsse.
    + destruct Hc as (Hready & Hid &
        [(Hopen & Hst & Hjd & Hjs) | [(Hopen & Hst & Hjd & Hjs) | (Hopen & Hst & Hjd & Hjs)]]).
      * split.
        -- intros Ho. apply Hiff in Ho as (_ & _ & Hdone & _). congruence.
        -- intros (hook' & Heq & Hdone). injection Heq as <-.
           destruct Hst as [Hst | Hst]; congruence.
      * split; [intros _; eauto |]. intros _. apply Hiff. tauto.
      * split.
        -- intros Ho. apply Hiff in Ho as (_ & _ & _ & Hcomp). congruence.
        -- intros (hook' & Heq & Hdone). injection Heq as <-. congruence.
    + split.
      * intros Ho. apply Hiff in Ho as (_ & Hid & _). congruence.
      * intros (hook' & Heq & _). discriminate.
  - intros Hrun. apply not_true_is_false. intros Ho.
    apply Hiff in Ho as (_ & _ & _ & Hcomp). congruence.
  - intros Hfail. apply not_true_is_false. intros Ho.
    apply Hiff in Ho as (_ & _ & _ & Hcomp). congruence.
Qed.

Lemma download_offered_only_when_completed_witness :
  let ready_page :=
    [App.Mount; App.ConfigLoaded sample_config; App.JobStarted "job-1";
     App.Stream ConnOpen; App.Stream (ServerSent "message" "transcribing")] in
  Page.offers_download
    (App.home (App.run signed_in_browser ready_page App.initial)) = false
  /\ Page.offers_download
       (App.home (App.run signed_in_browser
                    (ready_page ++ [App.Stream (ServerSent "done" "completed")])
                    App.initial)) = true
  /\ Page.offers_download
       (App.home (App.run signed_in_browser
                    (ready_page ++ [App.Stream (ServerSent "done" "failed")])
                    App.initial)) = false.
Proof.
  cbv zeta.
  split; [| split].
  - refine (proj1 (proj2 (proj2
      (download_offered_only_when_completed signed_in_browser _))) _).
    vm_compute. reflexivity.
  - refine (proj2 (proj1 (proj2
      (download_offered_only_when_completed signed_in_browser _))) _).
    vm_compute. repeat split; eauto.
  - refine (proj1 (proj2 (proj2 (proj2
      (download_offered_only_when_completed signed_in_browser _)))) _).
    vm_compute. reflexivity.
Defined.

End DownloadClaim.

Section ConnectionErrorClaim.
Import UseJobSSE.

(** A server event named [error] on an open stream, in general: the
    message is recorded, the status becomes [Failed], the stream closes. *)
Lemma named_error_dispatch (m : string) (st : State) :
  is_open st = true ->
  dispatch (ServerSent "error" m) st = close (setStatus Failed (setError (JStr m) st)).
Proof.
  intros Hopen. unfold dispatch. rewrite Hopen. rewrite fire_error by reflexivity.
  reflexivity.
Qed.

(** C9: a connection error received by the client sets the status to
    [Failed] and closes the [EventSource]; no later event is processed,
    so the stream is never resumed; the progress component reports the
    outcome [failed], and the page then shows the job as done and failed,
    without a download link. *)
Theorem connection_error_fails_and_closes
    (st : State) (later : list Event) (b : Auth.Browser) (app : App.State) :
  is_open st = true ->
  let st' := dispatch ConnError st in
  status st' = Failed
  /\ is_open st' = false
  /\ lines st' = lines st
  /\ run later st' = st'
  /\ JobProgress.status_effect (status st') = [JobProgress.failed]
  /\ (App.consistent app -> App.sse app = Some st ->
      let app' := App.step b (App.Stream ConnError) app in
      App.sse app' = Some st'
      /\ Page.jobDone (App.home app') = true
      /\ Page.jobStatus (App.home app') = Page.failed
      /\ Page.offers_download (App.home app') = false).
Proof.
  intros Hopen. cbv zeta.
  assert (Hd : dispatch ConnError st = onerror ConnError (error_listener ConnError st)).
  { unfold dispatch. rewrite Hopen. apply fire_error. reflexivity. }
  assert (Hclosed : is_open (dispatch ConnError st) = false).
  { rewrite Hd. apply is_open_close. }
  assert (Hfailed : status (dispatch ConnError st) = Failed).
  { rewrite Hd. reflexivity. }
  split; [exact Hfailed |].
  split; [exact Hclosed |].
  split; [rewrite Hd; reflexivity |].
  split; [apply run_closed, Hclosed |].
  split; [rewrite Hfailed; reflexivity |].
  intros Hc Hsse. unfold App.consistent in Hc. rewrite Hsse in Hc.
  destruct Hc as (_ & _ & [(_ & Hst & _) | [(Hopen' & _) | (Hopen' & _)]]);
    try congruence.
  unfold App.step. rewrite Hsse, Hfailed.
  destruct (decide (Failed = status st)) as [Heq | _];
    [destruct Hst as [Hst | Hst]; rewrite Hst in Heq; discriminate |].
  simpl. split; [reflexivity |]. split; [reflexivity |]. split; [reflexivity |].
  apply not_true_is_false. intros Ho.
  apply offers_download_iff in Ho as (_ & _ & _ & Hcomp). discriminate.
Qed.

Lemma connection_error_fails_and_closes_witness :
  is_open started_hook = true
  /\ status (dispatch ConnError started_hook) = Failed
  /\ run [ServerSent "done" "completed"] (dispatch ConnError started_hook)
     = dispatch ConnError started_hook
  /\ Page.jobStatus
       (App.home (App.step signed_in_browser (App.Stream ConnError) started_app))
     = Page.failed.
Proof.
  pose proof (connection_error_fails_and_closes started_hook
                [ServerSent "done" "completed"] signed_in_browser started_app
                eq_refl) as H.
  cbv zeta in H. destruct H as (Hs & _ & _ & Hr & _ & Happ).
  split; [reflexivity |]. split; [exact Hs |]. split; [exact Hr |].
  refine (proj1 (proj2 (proj2 (Happ _ _)))).
  - vm_compute.
    split; [split; [reflexivity | eexists; reflexivity] |].
    split; [reflexivity |]. left. repeat split. left. reflexivity.
  - vm_compute. reflexivity.
Defined.

End ConnectionErrorClaim.

(** * Properties of the engine model *)

(** ** Coalescing in the cache store *)

Section CacheFacts.
Import CacheStore.
Local Open Scope list_scope.

Lemma count_snoc (k k' : Key) (l : list Key) :
  count k (l ++ [k']) = if decide (k' = k) then S (count k l) else count k l.
Proof.
  unfold count. rewrite filter_app, length_app, filter_cons.
  destruct (decide (k' = k)); simpl; lia.
Qed.

Lemma filter_deliveries_other (k k' : Key) (r : Result) (waiting : list Caller) :
  k' <> k ->
  filter (fun d : Caller * Key * Result => d.1.2 = k)
         (map (fun c => (c, k', r)) waiting) = [].
Proof.
  intros Hne. induction waiting as [| c ws IH]; [reflexivity |].
  simpl. rewrite filter_cons. simpl. destruct (decide (k' = k)); [contradiction | exact IH].
Qed.

Lemma filter_deliveries_same (k : Key) (r : Result) (waiting : list Caller) :
  filter (fun d : Caller * Key * Result => d.1.2 = k)
         (map (fun c => (c, k, r)) waiting) = map (fun c => (c, k, r)) waiting.
Proof.
  induction waiting as [| c ws IH]; [reflexivity |].
  simpl. rewrite filter_cons. simpl. destruct (decide (k = k)); [| contradiction].
  rewrite IH. reflexivity.
Qed.

(** An event about another key leaves everything about [k] as it was. *)
Lemma step_frame (k : Key) (ev : Event) (st : State) :
  key_of ev <> k ->
  entries (step ev st) !! k = entries st !! k
  /\ in_flight (step ev st) !! k = in_flight st !! k
  /\ count k (upstream_calls (step ev st)) = count k (upstream_calls st)
  /\ delivered_for k (step ev st) = delivered_for k st.
Proof.
  intros Hne. destruct ev as [c k' | k' r]; simpl in Hne; unfold step, delivered_for.
  - destruct (entries st !! k') as [a |] eqn:He; simpl.
    + repeat split. rewrite filter_app, filter_cons. simpl.
      destruct (decide (k' = k)); [contradiction |]. rewrite filter_nil, app_nil_r. reflexivity.
    + destruct (in_flight st !! k') as [ws |] eqn:Hf; simpl.
      * repeat split. apply lookup_insert_ne, Hne.
      * repeat split; [apply lookup_insert_ne, Hne |].
        rewrite count_snoc. destruct (decide (k' = k)); [contradiction | reflexivity].
  - destruct (in_flight st !! k') as [ws |] eqn:Hf; simpl; [| repeat split].
    repeat split.
    + destruct r; [apply lookup_insert_ne, Hne | reflexivity].
    + apply lookup_delete_ne, Hne.
    + rewrite filter_app, filter_deliveries_other by exact Hne. apply app_nil_r.
Qed.

(** While the call for [k] is under way, every further request for [k]
    joins the waiting callers; no call is issued and nothing delivered. *)
Lemma run_in_flight (k : Key) (evs : list Event) (st : State) (waiting : list Caller) :
  entries st !! k = None ->
  in_flight st !! k = Some waiting ->
  pending k evs = true ->
  entries (run evs st) !! k = None
  /\ in_flight (run evs st) !! k = Some (waiting ++ requesters k evs)
  /\ count k (upstream_calls (run evs st)) = count k (upstream_calls st)
  /\ delivered_for k (run evs st) = delivered_for k st.
Proof.
  revert st waiting. induction evs as [| ev evs IH]; intros st waiting He Hf Hp.
  - simpl. rewrite app_nil_r. auto.
  - destruct (decide (key_of ev = k)) as [Hk | Hk].
    + destruct ev as [c k' | k' r]; simpl in Hk; subst k'.
      * simpl in Hp. cbn [run requesters]. destruct (decide (k = k)); [| contradiction].
        assert (Hstep : step (Request c k) st =
                        mkState (entries st) (<[k := waiting ++ [c]]> (in_flight st))
                                (upstream_calls st) (finished st) (delivered st)).
        { unfold step. rewrite He, Hf. reflexivity. }
        rewrite Hstep.
        match goal with
        | |- context [run evs ?s] =>
            destruct (IH s (waiting ++ [c]) He (lookup_insert_eq _ _ _) Hp)
              as (H1 & H2 & H3 & H4)
        end.
        rewrite <- app_assoc in H2. auto.
      * simpl in Hp. rewrite bool_decide_eq_true_2 in Hp by reflexivity. discriminate.
    + destruct (step_frame k ev st Hk) as (F1 & F2 & F3 & F4).
      assert (Hp' : pending k evs = true).
      { destruct ev as [c k' | k' r]; simpl in Hp; [exact Hp |].
        apply andb_true_iff in Hp as [_ Hp]. exact Hp. }
      assert (Hreq : requesters k (ev :: evs) = requesters k evs).
      { destruct ev as [c k' | k' r]; simpl in *; [| reflexivity].
        destruct (decide (k' = k)); [contradiction | reflexivity]. }
      rewrite Hreq. cbn [run].
      destruct (IH (step ev st) waiting) as (H1 & H2 & H3 & H4);
        [congruence | congruence | exact Hp' |].
      rewrite H3, H4, F3, F4. auto.
Qed.

(** From a state where [k] is absent and not being computed, the first
    request for [k] issues the one call. *)
Lemma run_absent (k : Key) (evs : list Event) (st : State) :
  entries st !! k = None ->
  in_flight st !! k = None ->
  pending k evs = true ->
  requesters k evs <> [] ->
  entries (run evs st) !! k = None
  /\ in_flight (run evs st) !! k = Some (requesters k evs)
  /\ count k (upstream_calls (run evs st)) = S (count k (upstream_calls st))
  /\ delivered_for k (run evs st) = delivered_for k st.
Proof.
  revert st. induction evs as [| ev evs IH]; intros st He Hf Hp Hreq.
  - simpl in Hreq. contradiction.
  - destruct (decide (key_of ev = k)) as [Hk | Hk].
    + destruct ev as [c k' | k' r]; simpl in Hk; subst k'.
      * simpl in Hp. cbn [run requesters]. destruct (decide (k = k)); [| contradiction].
        assert (Hstep : step (Request c k) st =
                        mkState (entries st) (<[k := [c]]> (in_flight st))
                                (upstream_calls st ++ [k]) (finished st) (delivered st)).
        { unfold step. rewrite He, Hf. reflexivity. }
        rewrite Hstep.
        match goal with
        | |- context [run evs ?s] =>
            destruct (run_in_flight k evs s [c] He (lookup_insert_eq _ _ _) Hp)
              as (H1 & H2 & H3 & H4)
        end.
        simpl in H3. rewrite count_snoc in H3.
        destruct (decide (k = k)); [| contradiction]. auto.
      * simpl in Hp. rewrite bool_decide_eq_true_2 in Hp by reflexivity. discriminate.
    + destruct (step_frame k ev st Hk) as (F1 & F2 & F3 & F4).
      assert (Hp' : pending k evs = true).
      { destruct ev as [c k' | k' r]; simpl in Hp; [exact Hp |].
        apply andb_true_iff in Hp as [_ Hp]. exact Hp. }
      assert (Hreq' : requesters k (ev :: evs) = requesters k evs).
      { destruct ev as [c k' | k' r]; simpl in *; [| reflexivity].
        destruct (decide (k' = k)); [contradiction | reflexivity]. }
      rewrite Hreq' in *. cbn [run].
      destruct (IH (step ev st)) as (H1 & H2 & H3 & H4);
        [congruence | congruence | exact Hp' | exact Hreq |].
      rewrite H3, H4, F3, F4. auto.
Qed.

(** Calls issued for a key are the calls returned plus the one under way,
    if any. *)
Lemma calls_balance_step (ev : Event) (st : State) :
  (forall k, count k (upstream_calls st) = count k (finished st) + outstanding k st) ->
  forall k, count k (upstream_calls (step ev st))
            = count k (finished (step ev st)) + outstanding k (step ev st).
Proof.
  intros Hinv k. specialize (Hinv k). unfold outstanding in *.
  destruct ev as [c k' | k' r]; unfold step.
  - destruct (entries st !! k') as [a |]; simpl; [exact Hinv |].
    destruct (in_flight st !! k') as [ws |] eqn:Hf; simpl.
    + destruct (decide (k' = k)) as [-> | Hne].
      * rewrite lookup_insert_eq. rewrite Hf in Hinv. exact Hinv.
      * rewrite lookup_insert_ne by exact Hne. exact Hinv.
    + rewrite count_snoc. destruct (decide (k' = k)) as [-> | Hne].
      * rewrite lookup_insert_eq. rewrite Hf in Hinv. lia.
      * rewrite lookup_insert_ne by exact Hne. exact Hinv.
  - destruct (in_flight st !! k') as [ws |] eqn:Hf; simpl; [| exact Hinv].
    rewrite count_snoc. destruct (decide (k' = k)) as [-> | Hne].
    + rewrite lookup_delete_eq. rewrite Hf in Hinv. lia.
    + rewrite lookup_delete_ne by exact Hne. exact Hinv.
Qed.

Lemma calls_balance (evs : list Event) (st : State) :
  (forall k, count k (upstream_calls st) = count k (finished st) + outstanding k st) ->
  forall k, count k (upstream_calls (run evs st))
            = count k (finished (run evs st)) + outstanding k (run evs st).
Proof.
  revert st. induction evs as [| ev evs IH]; intros st H; simpl; [exact H |].
  apply IH, calls_balance_step, H.
Qed.

End CacheFacts.

Section CacheClaim.
Import CacheStore.
Local Open Scope list_scope.

(** C3: when a key is absent and no computation for it is under way, any
    number of requests for it that arrive before the upstream call
    returns, interleaved in any way with events about other keys, issue
    exactly one upstream call for the key; when that call returns, every
    one of the callers receives its result, the same artifact or the same
    failure for all, and no further call has been made.  In every history
    the calls issued for a key are the calls returned plus at most one
    under way. *)
Theorem concurrent_requests_coalesce
    (k : Key) (st : State) (evs : list Event) (r : Result)
    (history : list Event) (k' : Key) :
  entries st !! k = None ->
  in_flight st !! k = None ->
  pending k evs = true ->
  requesters k evs <> [] ->
  let st1 := run evs st in
  let st2 := step (Complete k r) st1 in
  count k (upstream_calls st1) = S (count k (upstream_calls st))
  /\ count k (upstream_calls st2) = S (count k (upstream_calls st))
  /\ delivered_for k st2
     = delivered_for k st ++ map (fun c => (c, k, r)) (requesters k evs)
  /\ in_flight st2 !! k = None
  /\ entries st2 !! k = match r with Artifact a => Some a | Failure _ => None end
  /\ count k' (upstream_calls (run history empty))
     = count k' (finished (run history empty)) + outstanding k' (run history empty)
  /\ outstanding k' (run history empty) <= 1.
Proof.
  intros He Hf Hp Hreq. cbv zeta.
  destruct (run_absent k evs st He Hf Hp Hreq) as (H1 & H2 & H3 & H4).
  assert (Hstep : step (Complete k r) (run evs st) =
                  mkState (match r with
                           | Artifact a => <[k := a]> (entries (run evs st))
                           | Failure _ => entries (run evs st)
                           end)
                          (delete k (in_flight (run evs st)))
                          (upstream_calls (run evs st))
                          (finished (run evs st) ++ [k])
                          (delivered (run evs st)
                             ++ map (fun c => (c, k, r)) (requesters k evs))).
  { unfold step. rewrite H2. reflexivity. }
  rewrite Hstep. simpl.
  split; [exact H3 |]. split; [exact H3 |].
  split.
  { unfold delivered_for in *. simpl.
    rewrite filter_app, filter_deliveries_same, H4. reflexivity. }
  split; [apply lookup_delete_eq |].
  split.
  { destruct r; [apply lookup_insert_eq | exact H1]. }
  split.
  - apply calls_balance. intros k0. reflexivity.
  - unfold outstanding. destruct (in_flight (run history empty) !! k'); lia.
Qed.

Lemma concurrent_requests_coalesce_witness :
  count transcript_key (upstream_calls (run three_jobs empty)) = 1
  /\ delivered_for transcript_key
       (step (Complete transcript_key (Artifact "transcript_src_000.txt"))
             (run three_jobs empty))
     = [ (1, transcript_key, Artifact "transcript_src_000.txt");
         (2, transcript_key, Artifact "transcript_src_000.txt");
         (3, transcript_key, Artifact "transcript_src_000.txt") ].
Proof.
  pose proof (concurrent_requests_coalesce transcript_key empty three_jobs
                (Artifact "transcript_src_000.txt") [] transcript_key
                eq_refl eq_refl eq_refl) as H.
  cbv zeta in H.
  destruct H as (H1 & _ & H3 & _); [vm_compute; discriminate |].
  split; [exact H1 | exact H3].
Defined.

End CacheClaim.

(** ** Termination of the scheduler *)

Section EngineFacts.
Import Engine.
Local Open Scope nat_scope.

Variable w : World.
Variable lim : Limits.
Variable plan : list Stage.

Lemma step_terminal (j : Job) :
  terminal (status j) = true -> step w lim plan j = j.
Proof. unfold step. destruct (status j); simpl; intros H; try discriminate; reflexivity. Qed.

Lemma steps_terminal (n : nat) (j : Job) :
  terminal (status j) = true -> steps n w lim plan j = j.
Proof.
  induction n as [| n IH]; intros H; simpl; [reflexivity |].
  rewrite step_terminal by exact H. apply IH, H.
Qed.

Lemma bounded_call_time (r : Reply) : fst (bounded_call lim r) <= call_timeout lim.
Proof.
  unfold bounded_call. destruct r as [after o |]; simpl; [| lia].
  destruct (after <=? call_timeout lim) eqn:H; simpl; [apply Nat.leb_le, H | lia].
Qed.

Lemma backoff_capped (a : nat) : backoff lim a <= backoff_cap lim.
Proof. unfold backoff. apply Nat.le_min_l. Qed.

(** The budget of the stages from index [i] on. *)
Lemma later_stages_budget (units i : nat) :
  sum_list (map (fun stg => stage_budget lim (unit_count stg units)) (drop i plan))
  = match plan !! i with
    | Some stg =>
        stage_budget lim (unit_count stg units)
        + sum_list (map (fun stg => stage_budget lim (unit_count stg units))
                        (drop (S i) plan))
    | None => 0
    end.
Proof.
  destruct (plan !! i) as [stg |] eqn:H.
  - rewrite (drop_S _ _ _ H). reflexivity.
  - rewrite drop_ge by (apply lookup_ge_None, H). reflexivity.
Qed.

Lemma budget_next_stage (line : string) (j : Job) (stg : Stage) :
  status j = running ->
  plan !! stage_index j = Some stg ->
  budget lim plan (next_stage line j) < budget lim plan j.
Proof.
  intros Hs Hstg. unfold budget, running_budget. rewrite Hs, Hstg. simpl.
  rewrite (later_stages_budget (sub_units j) (S (stage_index j))).
  destruct (plan !! S (stage_index j)) as [stg' |] eqn:Hnext.
  - unfold stage_budget. rewrite !Nat.sub_0_r.
    generalize ((unit_count stg (sub_units j) - unit_index j) * S (max_attempts lim)).
    generalize (unit_count stg' (sub_units j) * S (max_attempts lim)).
    intros. lia.
  - rewrite drop_ge by (apply lookup_ge_None in Hnext; lia).
    generalize ((unit_count stg (sub_units j) - unit_index j) * S (max_attempts lim)).
    intros. simpl. lia.
Qed.

Lemma budget_positive (j : Job) :
  terminal (status j) = false -> 0 < budget lim plan j.
Proof.
  unfold budget, running_budget. destruct (status j); simpl; intros H; try discriminate; lia.
Qed.

(** Every move of a job that is not terminal uses up some of its budget. *)
Lemma budget_step (j : Job) :
  terminal (status j) = false ->
  budget lim plan (step w lim plan j) < budget lim plan j.
Proof.
  intros Ht. pose proof (budget_positive j Ht) as Hpos. unfold step.
  destruct (status j) eqn:Hs; try discriminate.
  - unfold budget, running_budget. simpl. rewrite Hs. lia.
  - destruct (plan !! stage_index j) as [stg |] eqn:Hstg; [| exact Hpos].
    destruct ((attempt j =? 0) && cancel_requested w (calls j)); [exact Hpos |].
    destruct ((unit_index j =? 0) && (attempt j =? 0) && cacheable stg && cached w (name stg)).
    { apply (budget_next_stage _ j stg Hs Hstg). }
    destruct (unit_count stg (sub_units j) <=? unit_index j) eqn:Hu.
    { apply (budget_next_stage _ j stg Hs Hstg). }
    apply Nat.leb_gt in Hu.
    destruct (snd (bounded_call lim (adapter w (calls j)))).
    + unfold budget, running_budget. simpl. rewrite Hs, Hstg.
      replace (unit_count stg (sub_units j) - unit_index j)
        with (S (unit_count stg (sub_units j) - S (unit_index j))) by lia.
      rewrite Nat.mul_succ_l.
      generalize ((unit_count stg (sub_units j) - S (unit_index j)) * S (max_attempts lim)).
      intros. lia.
    + destruct (S (attempt j) <? max_attempts lim) eqn:Ha; [| exact Hpos].
      apply Nat.ltb_lt in Ha.
      unfold budget, running_budget. simpl. rewrite Hs, Hstg.
      generalize ((unit_count stg (sub_units j) - unit_index j) * S (max_attempts lim)).
      intros. lia.
    + exact Hpos.
    + exact Hpos.
Qed.

(** Within its budget of moves a job is terminal. *)
Lemma steps_reach_terminal (n : nat) (j : Job) :
  budget lim plan j <= n -> terminal (status (steps n w lim plan j)) = true.
Proof.
  revert j. induction n as [| n IH]; intros j Hb.
  - simpl. destruct (terminal (status j)) eqn:Ht; [reflexivity |].
    pose proof (budget_positive j Ht). lia.
  - simpl. destruct (terminal (status j)) eqn:Ht.
    + rewrite step_terminal by exact Ht. rewrite steps_terminal by exact Ht. exact Ht.
    + apply IH. pose proof (budget_step j Ht). lia.
Qed.

(** A move takes at most one call under the timeout and one backoff. *)
Lemma elapsed_step (j : Job) :
  elapsed (step w lim plan j) <= elapsed j + (call_timeout lim + backoff_cap lim).
Proof.
  unfold step. destruct (status j); simpl; try lia.
  destruct (plan !! stage_index j) as [stg |]; simpl; [| lia].
  destruct ((attempt j =? 0) && cancel_requested w (calls j)); simpl; [lia |].
  destruct ((unit_index j =? 0) && (attempt j =? 0) && cacheable stg && cached w (name stg));
    simpl; [lia |].
  destruct (unit_count stg (sub_units j) <=? unit_index j); simpl; [lia |].
  pose proof (bounded_call_time (adapter w (calls j))) as Hcall.
  pose proof (backoff_capped (attempt j)) as Hback.
  destruct (snd (bounded_call lim (adapter w (calls j)))); simpl; try lia.
  destruct (S (attempt j) <? max_attempts lim); simpl; lia.
Qed.

Lemma elapsed_steps (n : nat) (j : Job) :
  elapsed (steps n w lim plan j)
  <= elapsed j + n * (call_timeout lim + backoff_cap lim).
Proof.
  revert j. induction n as [| n IH]; intros j; simpl; [lia |].
  pose proof (IH (step w lim plan j)). pose proof (elapsed_step j). lia.
Qed.

End EngineFacts.

Section EngineClaim.
Import Engine.
Local Open Scope nat_scope.

(** C4: whatever the adapters do, with stalled calls cut off at the
    per-call timeout and counted as retryable failures, a submitted job is
    completed or failed after at most its budget of scheduler moves, within
    a time bounded by that many timeouts and backoffs; once terminal it
    never changes. *)
Theorem every_job_reaches_terminal_state
    (w : World) (lim : Limits) (plan : list Stage) (units : nat)
    (r : Reply) (more : nat) :
  let n := budget lim plan (submit units) in
  let j := steps n w lim plan (submit units) in
  (status j = completed \/ status j = failed)
  /\ elapsed j <= n * (call_timeout lim + backoff_cap lim)
  /\ steps more w lim plan j = j
  /\ fst (bounded_call lim r) <= call_timeout lim
  /\ bounded_call lim Stalled = (call_timeout lim, Retryable).
Proof.
  cbv zeta.
  pose proof (steps_reach_terminal w lim plan _ (submit units) (Nat.le_refl _)) as Ht.
  split.
  { destruct (status (steps _ w lim plan (submit units))); simpl in Ht;
      try discriminate; [left | right]; reflexivity. }
  split; [apply (elapsed_steps w lim plan _ (submit units)) |].
  split; [apply steps_terminal, Ht |].
  split; [apply bounded_call_time | reflexivity].
Qed.

End EngineClaim.

(** * Worked examples *)

Section Examples.
Local Open Scope list_scope.

Example hook_full_stream :
  let st := UseJobSSE.run
              [UseJobSSE.ConnOpen;
               UseJobSSE.ServerSent "message" "downloading";
               UseJobSSE.ServerSent "message" "transcribing";
               UseJobSSE.ServerSent "done" "completed";
               UseJobSSE.ServerSent "message" "late"] mounted_hook in
  UseJobSSE.lines st = [JStr "downloading"; JStr "transcribing"]
  /\ UseJobSSE.status st = UseJobSSE.Done
  /\ UseJobSSE.error st = JNull
  /\ UseJobSSE.is_open st = false.
Proof. repeat split; reflexivity. Qed.

Example hook_connection_error_sets_undefined :
  UseJobSSE.error (UseJobSSE.dispatch UseJobSSE.ConnError mounted_hook) = JUndefined.
Proof. reflexivity. Qed.

Example trim_example : trim "  A fox saw grapes. " = "A fox saw grapes.".
Proof. reflexivity. Qed.

(** The ideographic space, the no-break space and the line separator
    are trimmed; the letter U+0920, whose encoding ends in the second
    byte of the no-break space, is not. *)
Example trim_unicode :
  trim (Notions.bytes [227; 128; 128] ++ "katha"
        ++ Notions.bytes [194; 160; 226; 128; 168])%string = "katha"
  /\ trim (Notions.bytes [224; 164; 160]) = Notions.bytes [224; 164; 160]
  /\ trim (Notions.bytes [227; 128; 128; 194; 160; 32]) = "".
Proof. repeat split; reflexivity. Qed.

Example to_string_array :
  to_string (JsArray [JsNum (mkNumber false "1" true); JsNull; JsString "x";
                      JsArray [JsBool true; JsNum (mkNumber false "1e+21" true)]])
  = Returned "1,,x,true,1e+21".
Proof. reflexivity. Qed.

(** A validation error answers with a list of objects as [detail]. *)
Example validation_detail_message :
  or_else_message (Some (JsArray [JsObject [("msg", JsString "field required")]]))
                  "Failed to submit dub job"
  = Returned "[object Object]".
Proof. reflexivity. Qed.

(** A [detail] object with a key [toString] has no conversion: the
    [TypeError] is what the submission throws. *)
Example detail_without_conversion :
  snd (Api.submitDub
         (always (Api.mkResponse 400
                    (Api.BodyJson (JsObject [("detail", JsObject [("toString", JsString "x")])]))))
         dub_request signed_in_browser)
  = Threw (TypeError primitive_conversion_message).
Proof.
  rewrite (submitDub_answered _
             (Api.mkResponse 400
                (Api.BodyJson (JsObject [("detail", JsObject [("toString", JsString "x")])])))
             (fun _ => eq_refl)).
  reflexivity.
Qed.

Example accepted_submission_starts_job :
  snd (DubForm.handleSubmit (always accepted) DubForm.initial signed_in_browser)
  = (DubForm.initial, [Some (JsString "job-1")]).
Proof.
  unfold DubForm.handleSubmit, Api.bind.
  rewrite (submitDub_answered (always accepted) accepted (fun _ => eq_refl)).
  reflexivity.
Qed.

Example non_json_rejection_throws_syntax_error :
  snd (Api.submitDub (always (Api.mkResponse 502 (Api.BodyInvalid "Unexpected token <")))
                     dub_request signed_in_browser)
  = Threw (SyntaxError "Unexpected token <").
Proof.
  rewrite (submitDub_answered _ (Api.mkResponse 502 (Api.BodyInvalid "Unexpected token <"))
             (fun _ => eq_refl)).
  reflexivity.
Qed.

Example dub_job_completes :
  let j := Engine.steps 30 prompt_world limits Engine.dub_pipeline (Engine.submit 2) in
  Engine.status j = Engine.completed /\ Engine.calls j = 11 /\ Engine.elapsed j = 11.
Proof. vm_compute. repeat split; reflexivity. Qed.

(** An adapter that never replies: three attempts, each cut at the
    timeout, then the job fails. *)
Example stalled_adapter_fails_job :
  let j := Engine.steps 30 stalled_world limits Engine.dub_pipeline (Engine.submit 2) in
  Engine.status j = Engine.failed
  /\ Engine.calls j = 3
  /\ Engine.failure_reason j = Some "acquire source: retries exhausted"
  /\ Engine.elapsed j = 30 + 1 + 30 + 2 + 30.
Proof. vm_compute. repeat split; reflexivity. Qed.

(** Two retryable failures, then success: the stage passes on the third
    attempt. *)
Example flaky_adapter_third_attempt :
  let j := Engine.steps 4 flaky_world limits Engine.dub_pipeline (Engine.submit 2) in
  Engine.status j = Engine.running
  /\ Engine.calls j = 3 /\ Engine.unit_index j = 1 /\ Engine.attempt j = 0.
Proof. vm_compute. repeat split; reflexivity. Qed.

Example budget_of_dub_job :
  Engine.budget limits Engine.dub_pipeline (Engine.submit 2) = 78.
Proof. vm_compute. reflexivity. Qed.

End Examples.

(** * Further properties of the client *)

(** ** The stored session *)

Section SessionFacts.
Import Auth.

Lemma token_key_not_email_key : TOKEN_KEY <> EMAIL_KEY.
Proof. discriminate. Qed.

Lemma lookup_logout (b : Browser) (k : string) :
  localStorage (logout b) !! k =
  if decide (k = TOKEN_KEY \/ k = EMAIL_KEY) then None else localStorage b !! k.
Proof.
  unfold logout. simpl. rewrite !lookup_delete.
  destruct (decide (EMAIL_KEY = k)) as [<- | He].
  - rewrite decide_True by (right; reflexivity). reflexivity.
  - destruct (decide (TOKEN_KEY = k)) as [<- | Ht].
    + rewrite decide_True by (left; reflexivity). reflexivity.
    + rewrite decide_False by (intros [-> | ->]; contradiction). reflexivity.
Qed.

Lemma lookup_saveAuth (token email : string) (b : Browser) (k : string) :
  localStorage (saveAuth token email b) !! k =
  if decide (k = EMAIL_KEY) then Some email
  else if decide (k = TOKEN_KEY) then Some token
  else localStorage b !! k.
Proof.
  unfold saveAuth. simpl. rewrite !lookup_insert.
  destruct (decide (EMAIL_KEY = k)) as [<- | He].
  - rewrite decide_True by reflexivity. reflexivity.
  - rewrite (decide_False (P := k = EMAIL_KEY)) by congruence.
    destruct (decide (TOKEN_KEY = k)) as [<- | Ht].
    + rewrite decide_True by reflexivity. reflexivity.
    + rewrite decide_False by congruence. reflexivity.
Qed.

Lemma browser_ext (b1 b2 : Browser) :
  location_href b1 = location_href b2 ->
  (forall k, localStorage b1 !! k = localStorage b2 !! k) ->
  b1 = b2.
Proof.
  destruct b1 as [m1 l1], b2 as [m2 l2]. simpl. intros -> H. f_equal. apply map_eq, H.
Qed.

Lemma isLoggedIn_logout (b : Browser) : isLoggedIn (logout b) = false.
Proof.
  unfold isLoggedIn, getToken. rewrite lookup_logout.
  rewrite decide_True by (left; reflexivity). reflexivity.
Qed.

(** X1: what [saveAuth] stores is what [getToken] and [getEmail] read
    back; the user then counts as logged in exactly when the token is not
    the empty string; no other key of the storage and not the location is
    touched. *)
Theorem saveAuth_round_trip (token email : string) (b : Browser) (k : string) :
  getToken (saveAuth token email b) = Some token
  /\ getEmail (saveAuth token email b) = Some email
  /\ isLoggedIn (saveAuth token email b) = negb (String.eqb token "")
  /\ (k <> TOKEN_KEY -> k <> EMAIL_KEY ->
      localStorage (saveAuth token email b) !! k = localStorage b !! k)
  /\ location_href (saveAuth token email b) = location_href b.
Proof.
  assert (Ht : getToken (saveAuth token email b) = Some token).
  { unfold getToken. rewrite lookup_saveAuth.
    rewrite decide_False by exact token_key_not_email_key.
    rewrite decide_True by reflexivity. reflexivity. }
  split; [exact Ht |]. split.
  { unfold getEmail. rewrite lookup_saveAuth, decide_True by reflexivity. reflexivity. }
  split.
  { unfold isLoggedIn. rewrite Ht. reflexivity. }
  split; [| reflexivity].
  intros Hk He. rewrite lookup_saveAuth, !decide_False by assumption. reflexivity.
Qed.

(** X2: [logout] forgets the session whatever was stored, also right
    after [saveAuth]: no token, no email, not logged in.  It keeps every
    other key of the storage, and a second [logout] changes nothing. *)
Theorem logout_clears_session_only (token email : string) (b : Browser) (k : string) :
  getToken (logout b) = None
  /\ getEmail (logout b) = None
  /\ isLoggedIn (logout b) = false
  /\ isLoggedIn (logout (saveAuth token email b)) = false
  /\ logout (saveAuth token email b) = logout b
  /\ logout (logout b) = logout b
  /\ (k <> TOKEN_KEY -> k <> EMAIL_KEY ->
      localStorage (logout b) !! k = localStorage b !! k).
Proof.
  split.
  { unfold getToken. rewrite lookup_logout, decide_True by (left; reflexivity). reflexivity. }
  split.
  { unfold getEmail. rewrite lookup_logout, decide_True by (right; reflexivity). reflexivity. }
  split; [apply isLoggedIn_logout |].
  split; [apply isLoggedIn_logout |].
  split.
  { apply browser_ext; [reflexivity |]. intros j. rewrite !lookup_logout.
    destruct (decide (j = TOKEN_KEY \/ j = EMAIL_KEY)) as [Hj | Hj]; [reflexivity |].
    rewrite lookup_saveAuth, !decide_False by tauto. reflexivity. }
  split.
  { apply browser_ext; [reflexivity |]. intros j. rewrite !lookup_logout.
    destruct (decide (j = TOKEN_KEY \/ j = EMAIL_KEY)); reflexivity. }
  intros Hk He. rewrite lookup_logout, decide_False by tauto. reflexivity.
Qed.

(** X3: in the headers [authHeaders] builds, every header of [extra] is
    kept as given; [Authorization] is added, as [Bearer] and the stored
    token, exactly when a non-empty token is stored and [extra] has no
    [Authorization] of its own; no other header is added. *)
Theorem authHeaders_authorization
    (extra : gmap string string) (b : Browser) (k v : string) :
  (extra !! k = Some v -> authHeaders extra b !! k = Some v)
  /\ (extra !! "Authorization" = None ->
      authHeaders extra b !! "Authorization" =
      match getToken b with
      | Some token => if String.eqb token "" then None else Some ("Bearer " ++ token)
      | None => None
      end)
  /\ (k <> "Authorization" -> authHeaders extra b !! k = extra !! k).
Proof.
  unfold authHeaders. split; [| split].
  - intros H. apply lookup_union_Some_l. exact H.
  - intros H. rewrite lookup_union_r by exact H.
    destruct (getToken b) as [token |]; [| apply lookup_empty].
    unfold truthy_string. destruct (String.eqb token ""); simpl.
    + apply lookup_empty.
    + apply lookup_singleton_eq.
  - intros Hk. apply lookup_union_l.
    destruct (getToken b) as [token |]; [| apply lookup_empty].
    destruct (truthy_string token); [| apply lookup_empty].
    apply lookup_singleton_ne. congruence.
Qed.

End SessionFacts.

(** ** The API client, beyond rejections *)

Section ApiMore.
Import Auth Api.

Lemma append_empty_r (s : string) : s ++ "" = s.
Proof.
  induction s as [| c s IH]; [reflexivity |].
  change (String c (s ++ "") = String c s). rewrite IH. reflexivity.
Qed.

Lemma token_query_logout (b : Browser) : token_query (logout b) = "".
Proof.
  unfold token_query, getToken. rewrite lookup_logout.
  rewrite decide_True by (left; reflexivity). reflexivity.
Qed.

Lemma token_query_saveAuth (token email : string) (b : Browser) :
  token_query (saveAuth token email b)
  = if String.eqb token "" then "" else "?token=" ++ token.
Proof.
  unfold token_query, getToken. rewrite lookup_saveAuth.
  rewrite decide_False by exact token_key_not_email_key.
  rewrite decide_True by reflexivity. unfold truthy_string.
  destruct (String.eqb token ""); reflexivity.
Qed.

(** X4: the download and event URLs of a job carry the stored token as
    their query when one is stored and not empty, and no query at all
    after [logout]; the download button links to the download URL. *)
Theorem job_urls_carry_stored_token (jobId token email : string) (b : Browser) :
  getDownloadUrl jobId (logout b) = API ++ "/jobs/" ++ jobId ++ "/download"
  /\ getEventsUrl jobId (logout b) = API ++ "/jobs/" ++ jobId ++ "/events"
  /\ getDownloadUrl jobId (saveAuth token email b)
     = API ++ "/jobs/" ++ jobId ++ "/download"
       ++ (if String.eqb token "" then "" else "?token=" ++ token)
  /\ getEventsUrl jobId (saveAuth token email b)
     = API ++ "/jobs/" ++ jobId ++ "/events"
       ++ (if String.eqb token "" then "" else "?token=" ++ token)
  /\ DownloadButton.href jobId b = getDownloadUrl jobId b.
Proof.
  unfold getDownloadUrl, getEventsUrl.
  rewrite token_query_logout, token_query_saveAuth, !append_empty_r.
  repeat split; reflexivity.
Qed.

Lemma getConfig_browser (server : Server) (b : Browser) :
  fst (getConfig server b) = b.
Proof.
  unfold getConfig, bind, fetch, res_json, throw, ret.
  destruct (server _) as [res | m]; simpl; [| reflexivity].
  destruct (ok res); simpl; [| reflexivity].
  destruct (body res); reflexivity.
Qed.

(** X5: [getConfig] never touches the session: whatever the server or the
    network does, the browser is left as it was; a response that is not
    OK, a 401 or 403 included, only throws ["Failed to fetch config"]. *)
Theorem getConfig_never_logs_out (server : Server) (res : Response) (b : Browser) :
  (forall req, server req = Responded res) ->
  ok res = false ->
  getConfig server b = (b, Threw (Error "Failed to fetch config"))
  /\ forall server' b', fst (getConfig server' b') = b'.
Proof.
  intros Hs Hok. split; [| intros; apply getConfig_browser].
  unfold getConfig, bind, fetch. rewrite Hs. simpl. rewrite Hok. reflexivity.
Qed.

Lemma getConfig_never_logs_out_witness :
  getConfig (always session_expired) signed_in_browser
  = (signed_in_browser, Threw (Error "Failed to fetch config")).
Proof.
  exact (proj1 (getConfig_never_logs_out (always session_expired) session_expired
                  signed_in_browser (fun _ => eq_refl) eq_refl)).
Defined.

(** What [res.json()] gives for a response. *)
Lemma res_json_result (res : Response) (b : Browser) :
  res_json res b =
  (b, match body res with
      | BodyJson v => Returned v
      | BodyInvalid m => Threw (SyntaxError m)
      end).
Proof. unfold res_json. destruct (body res); reflexivity. Qed.

Lemma ok_not_unauthorized (res : Response) :
  ok res = true -> status res <> 401%Z /\ status res <> 403%Z.
Proof.
  unfold ok. intros H. apply andb_true_iff in H as [_ H]. apply Z.leb_le in H. lia.
Qed.

(** X6: for a status other than 401 and 403, [getJob] leaves the browser
    as it was; a response that is not OK throws ["Failed to fetch job"]
    without reading the body, and an OK response gives the parsed body,
    or the parser's error when the body is not JSON. *)
Theorem getJob_result
    (server : Server) (res : Response) (jobId : string) (b : Browser) :
  (forall req, server req = Responded res) ->
  status res <> 401%Z -> status res <> 403%Z ->
  getJob server jobId b =
  (b, if ok res
      then match body res with
           | BodyJson v => Returned v
           | BodyInvalid m => Threw (SyntaxError m)
           end
      else Threw (Error "Failed to fetch job")).
Proof.
  intros Hs H1 H3. rewrite (getJob_answered server res Hs). unfold bind.
  rewrite (handleResponse_other res b H1 H3).
  destruct (ok res); simpl; [apply res_json_result | reflexivity].
Qed.

Lemma getJob_result_witness :
  getJob (always missing_url) "job-1" signed_in_browser
  = (signed_in_browser, Threw (Error "Failed to fetch job"))
  /\ getJob (always accepted) "job-1" signed_in_browser
     = (signed_in_browser,
        Returned (JsObject [("job_id", JsString "job-1"); ("status", JsString "queued")])).
Proof.
  split.
  - refine (getJob_result (always missing_url) missing_url "job-1" signed_in_browser
              (fun _ => eq_refl) _ _); discriminate.
  - refine (getJob_result (always accepted) accepted "job-1" signed_in_browser
              (fun _ => eq_refl) _ _); discriminate.
Defined.

Lemma submit_accepted (fallback : string) (res : Response) (b : Browser) :
  ok res = true ->
  (r <- handleResponse res ;; reject_or_parse fallback r) b =
  (b, match body res with
      | BodyJson v => Returned v
      | BodyInvalid m => Threw (SyntaxError m)
      end).
Proof.
  intros Hok. destruct (ok_not_unauthorized res Hok) as [H1 H3].
  unfold bind. rewrite (handleResponse_other res b H1 H3).
  unfold reject_or_parse. rewrite Hok. simpl. apply res_json_result.
Qed.

(** X7: a submission answered with an OK response returns the parsed body
    and leaves the browser as it was; the form then calls its job-started
    handler once, with the body's [job_id] ([undefined] when the body has
    none), clears its error and ends not loading. *)
Theorem accepted_submission_returns_body
    (server : Server) (res : Response) (b : Browser)
    (dp : DubParams.t) (sp : StoryParams.t)
    (df : DubForm.State) (sf : StoryForm.State) (fields : list (string * json)) :
  (forall req, server req = Responded res) ->
  ok res = true ->
  body res = BodyJson (JsObject fields) ->
  submitDub server dp b = (b, Returned (JsObject fields))
  /\ submitStory server sp b = (b, Returned (JsObject fields))
  /\ DubForm.handleSubmit server df b
     = (b, (DubForm.setLoading false (DubForm.setError "" df), [assoc "job_id" fields]))
  /\ StoryForm.handleSubmit server sf b
     = (b, (StoryForm.setLoading false (StoryForm.setError "" sf), [assoc "job_id" fields])).
Proof.
  intros Hs Hok Hbody.
  assert (Hd : forall p, submitDub server p b = (b, Returned (JsObject fields))).
  { intros p. rewrite (submitDub_answered server res Hs), (submit_accepted _ res b Hok).
    rewrite Hbody. reflexivity. }
  assert (Hst : forall p, submitStory server p b = (b, Returned (JsObject fields))).
  { intros p. rewrite (submitStory_answered server res Hs), (submit_accepted _ res b Hok).
    rewrite Hbody. reflexivity. }
  split; [apply Hd |]. split; [apply Hst |]. split.
  - unfold DubForm.handleSubmit, bind. rewrite Hd. reflexivity.
  - unfold StoryForm.handleSubmit, bind. rewrite Hst. reflexivity.
Qed.

Lemma accepted_submission_returns_body_witness :
  DubForm.handleSubmit (always accepted) DubForm.initial signed_in_browser
  = (signed_in_browser, (DubForm.initial, [Some (JsString "job-1")])).
Proof.
  exact (proj1 (proj2 (proj2
    (accepted_submission_returns_body (always accepted) accepted signed_in_browser
       dub_request story_request DubForm.initial StoryForm.initial _
       (fun _ => eq_refl) eq_refl eq_refl)))).
Defined.

(** X8: when the network fails, every API call throws the [TypeError] of
    [fetch] and leaves the browser as it was; the forms show its message,
    call no handler and end not loading. *)
Theorem network_failure_is_thrown
    (server : Server) (m : string) (b : Browser)
    (dp : DubParams.t) (sp : StoryParams.t) (jobId : string)
    (df : DubForm.State) (sf : StoryForm.State) :
  (forall req, server req = NetworkError m) ->
  getConfig server b = (b, Threw (TypeError m))
  /\ submitDub server dp b = (b, Threw (TypeError m))
  /\ submitStory server sp b = (b, Threw (TypeError m))
  /\ getJob server jobId b = (b, Threw (TypeError m))
  /\ DubForm.handleSubmit server df b
     = (b, (DubForm.setLoading false (DubForm.setError m df), []))
  /\ StoryForm.handleSubmit server sf b
     = (b, (StoryForm.setLoading false (StoryForm.setError m sf), [])).
Proof.
  intros Hs.
  assert (Hd : forall p, submitDub server p b = (b, Threw (TypeError m))).
  { intros p. unfold submitDub, bind, read, fetch. rewrite Hs. reflexivity. }
  assert (Hst : forall p, submitStory server p b = (b, Threw (TypeError m))).
  { intros p. unfold submitStory, bind, read, fetch. rewrite Hs. reflexivity. }
  split; [unfold getConfig, bind, fetch; rewrite Hs; reflexivity |].
  split; [apply Hd |]. split; [apply Hst |].
  split; [unfold getJob, bind, read, fetch; rewrite Hs; reflexivity |].
  split.
  - unfold DubForm.handleSubmit, bind. rewrite Hd. reflexivity.
  - unfold StoryForm.handleSubmit, bind. rewrite Hst. reflexivity.
Qed.

Lemma network_failure_is_thrown_witness :
  DubForm.handleSubmit (fun _ => NetworkError "Failed to fetch") DubForm.initial
                       signed_in_browser
  = (signed_in_browser,
     (DubForm.setLoading false (DubForm.setError "Failed to fetch" DubForm.initial), [])).
Proof.
  exact (proj1 (proj2 (proj2 (proj2 (proj2
    (network_failure_is_thrown (fun _ => NetworkError "Failed to fetch") "Failed to fetch"
       signed_in_browser dub_request story_request "job-1"
       DubForm.initial StoryForm.initial (fun _ => eq_refl))))))).
Defined.

End ApiMore.

(** ** The two forms *)

Section FormFacts.
Import Api.

(** X11: whatever the server answers, [handleSubmit] of either form ends
    not loading, keeps what the user entered, and calls the job-started
    handler at most once; when it calls it, no error is shown. *)
Theorem form_submit_invariants
    (server : Server) (b : Auth.Browser) (df : DubForm.State) (sf : StoryForm.State) :
  let d := snd (DubForm.handleSubmit server df b) in
  let s := snd (StoryForm.handleSubmit server sf b) in
  (DubForm.loading (fst d) = false
   /\ DubForm.url (fst d) = DubForm.url df
   /\ DubForm.sourceLang (fst d) = DubForm.sourceLang df
   /\ DubForm.targetLang (fst d) = DubForm.targetLang df
   /\ DubForm.speaker (fst d) = DubForm.speaker df
   /\ length (snd d) <= 1
   /\ (snd d <> [] -> DubForm.error (fst d) = ""))
  /\ (StoryForm.loading (fst s) = false
      /\ StoryForm.mode (fst s) = StoryForm.mode sf
      /\ StoryForm.theme (fst s) = StoryForm.theme sf
      /\ StoryForm.keyword (fst s) = StoryForm.keyword sf
      /\ StoryForm.text (fst s) = StoryForm.text sf
      /\ StoryForm.targetLang (fst s) = StoryForm.targetLang sf
      /\ StoryForm.speaker (fst s) = StoryForm.speaker sf
      /\ StoryForm.mood (fst s) = StoryForm.mood sf
      /\ length (snd s) <= 1
      /\ (snd s <> [] -> StoryForm.error (fst s) = "")).
Proof.
  cbv zeta. split.
  - unfold DubForm.handleSubmit.
    destruct ((res <- submitDub server (DubForm.params df) ;; lift (get_prop res "job_id")) b)
      as [b' [job_id | err]]; simpl; repeat split; try lia.
    intros H. contradiction.
  - unfold StoryForm.handleSubmit.
    destruct ((res <- submitStory server (StoryForm.params sf) ;; lift (get_prop res "job_id")) b)
      as [b' [job_id | err]]; simpl; repeat split; try lia.
    intros H. contradiction.
Qed.

(** X12: the dub form never sends [file_path] or [workers]; it sends the
    selected languages, the speaker only when one is chosen, and the URL
    only when it is not empty, which an enabled submit button guarantees;
    an enabled button also means no submission is under way. *)
Theorem dub_form_params (st : DubForm.State) :
  let p := DubForm.params st in
  DubParams.file_path p = None
  /\ DubParams.workers p = None
  /\ DubParams.source_lang p = DubForm.sourceLang st
  /\ DubParams.target_lang p = DubForm.targetLang st
  /\ DubParams.speaker p
     = (if String.eqb (DubForm.speaker st) "" then None else Some (DubForm.speaker st))
  /\ DubParams.url p
     = (if String.eqb (DubForm.url st) "" then None else Some (DubForm.url st))
  /\ (DubForm.disabled st = false ->
      DubForm.loading st = false
      /\ DubForm.url st <> ""
      /\ DubParams.url p = Some (DubForm.url st)).
Proof.
  cbv zeta. unfold DubForm.params, or_undefined, truthy_string. simpl.
  split; [reflexivity |]. split; [reflexivity |]. split; [reflexivity |].
  split; [reflexivity |].
  split; [destruct (String.eqb (DubForm.speaker st) ""); reflexivity |].
  split; [destruct (String.eqb (DubForm.url st) ""); reflexivity |].
  unfold DubForm.disabled, truthy_string. intros Hd.
  apply orb_false_elim in Hd as [Hl Hu]. rewrite negb_involutive in Hu.
  split; [exact Hl |]. split.
  - intros Heq. rewrite Heq in Hu. discriminate.
  - rewrite Hu. reflexivity.
Qed.

End FormFacts.

(** ** The story form's validity *)

Section TrimFacts.
Import Notions.

Lemma trim_start_step (s : string) :
  trim_start s =
  match white_space_prefix s with
  | 0 => s
  | n => trim_start (skip n s)
  end.
Proof.
  destruct s as [| a [| b [| c r]]]; simpl; try reflexivity;
    destruct (white_space_1 a); try reflexivity;
    destruct (white_space_2 a b); try reflexivity;
    destruct (white_space_3 a b c); reflexivity.
Qed.

Lemma blank_step (s : string) :
  blank s =
  match s with
  | EmptyString => true
  | _ => match white_space_prefix s with
         | 0 => false
         | n => blank (skip n s)
         end
  end.
Proof.
  destruct s as [| a [| b [| c r]]]; simpl; try reflexivity;
    destruct (white_space_1 a); try reflexivity;
    destruct (white_space_2 a b); try reflexivity;
    destruct (white_space_3 a b c); reflexivity.
Qed.

Lemma skip_prefix_shorter (s : string) :
  white_space_prefix s <> 0 ->
  String.length (skip (white_space_prefix s) s) < String.length s.
Proof.
  destruct s as [| a [| b [| c r]]]; simpl; try congruence;
    destruct (white_space_1 a); simpl; try lia; try congruence;
    destruct (white_space_2 a b); simpl; try lia; try congruence;
    destruct (white_space_3 a b c); simpl; try lia; congruence.
Qed.

(** [trim_start] gives the empty string exactly for a blank string. *)
Lemma trim_start_empty_iff (n : nat) (s : string) :
  String.length s <= n -> (trim_start s = "" <-> blank s = true).
Proof.
  revert s. induction n as [| n IH]; intros s Hn.
  - destruct s; simpl in Hn; [simpl; tauto | lia].
  - rewrite trim_start_step, blank_step.
    destruct s as [| a r]; [tauto |].
    pose proof (skip_prefix_shorter (String a r)) as Hshort.
    destruct (white_space_prefix (String a r)) as [| k].
    + split; discriminate.
    + apply IH. specialize (Hshort (Nat.neq_succ_0 k)). lia.
Qed.

(** What [trim_start] returns starts with no white space. *)
Lemma trim_start_stable (n : nat) (s : string) :
  String.length s <= n -> white_space_prefix (trim_start s) = 0.
Proof.
  revert s. induction n as [| n IH]; intros s Hn.
  - destruct s; simpl in Hn; [reflexivity | lia].
  - rewrite trim_start_step.
    pose proof (skip_prefix_shorter s) as Hshort.
    destruct (white_space_prefix s) as [| k] eqn:Hp; [exact Hp |].
    apply IH. specialize (Hshort (Nat.neq_succ_0 k)). lia.
Qed.

Lemma trim_end_step (a : ascii) (r : string) :
  trim_end (String a r) =
  if is_white_space (String a (trim_end r)) then "" else String a (trim_end r).
Proof. reflexivity. Qed.

Lemma trim_end_head (s k : string) (b : ascii) :
  trim_end s = String b k -> exists r, s = String b r /\ trim_end r = k.
Proof.
  destruct s as [| a r]; [discriminate |]. rewrite trim_end_step.
  destruct (is_white_space (String a (trim_end r))); [discriminate |].
  intros H. injection H as -> <-. eauto.
Qed.

(** A string that [trim_end] empties starts with white space, unless it
    is empty. *)
Lemma trim_end_empty_prefix (t : string) :
  trim_end t = "" -> t <> "" -> white_space_prefix t <> 0.
Proof.
  destruct t as [| a rest]; [congruence |]. intros H _.
  rewrite trim_end_step in H.
  destruct (is_white_space (String a (trim_end rest))) eqn:Hw; [| discriminate].
  destruct (trim_end rest) as [| b k] eqn:Hk.
  - simpl in Hw. simpl. rewrite Hw. discriminate.
  - apply trim_end_head in Hk as (r2 & -> & Hk2).
    destruct k as [| c k'].
    + simpl in Hw. simpl. destruct (white_space_1 a); [discriminate |].
      rewrite Hw. discriminate.
    + apply trim_end_head in Hk2 as (r3 & -> & Hk3).
      destruct k' as [| d k'']; [| simpl in Hw; discriminate].
      simpl in Hw. simpl. destruct (white_space_1 a); [discriminate |].
      destruct (white_space_2 a b); [discriminate |].
      rewrite Hw. discriminate.
Qed.

Lemma trim_empty_iff (s : string) : trim s = "" <-> blank s = true.
Proof.
  unfold trim. split.
  - intros H.
    destruct (trim_start s) as [| a r] eqn:Ht.
    + apply (trim_start_empty_iff (String.length s) s (Nat.le_refl _)). exact Ht.
    + exfalso. apply (trim_end_empty_prefix (String a r) H); [discriminate |].
      rewrite <- Ht. apply (trim_start_stable (String.length s) s (Nat.le_refl _)).
  - intros H.
    apply (trim_start_empty_iff (String.length s) s (Nat.le_refl _)) in H.
    rewrite H. reflexivity.
Qed.

(** X14: the story form is valid in theme mode always, and in text mode
    exactly when the text is not made of white-space characters alone,
    the white space being all of what [trim] removes. *)
Theorem story_form_validity (st : StoryForm.State) :
  StoryForm.isValid st = true
  <-> StoryForm.mode st = StoryForm.theme_mode \/ blank (StoryForm.text st) = false.
Proof.
  unfold StoryForm.isValid. destruct (StoryForm.mode st).
  - split; [left; reflexivity | reflexivity].
  - pose proof (trim_empty_iff (StoryForm.text st)) as Hb.
    destruct (trim (StoryForm.text st)) as [| a t] eqn:Ht; simpl.
    + split; [discriminate |]. intros [H | H]; [discriminate |].
      rewrite (proj1 Hb eq_refl) in H. discriminate.
    + split; [| reflexivity]. intros _. right.
      destruct (blank (StoryForm.text st)); [| reflexivity].
      discriminate (proj2 Hb eq_refl).
Qed.

End TrimFacts.

(** ** The progress hook over whole streams *)

Section HookMore.
Import UseJobSSE Notions.
Local Open Scope list_scope.

Lemma closing_false (e : Event) :
  closing e = false -> type e <> "done" /\ type e <> "error".
Proof.
  unfold closing. intros H. apply orb_false_elim in H as [Hd He].
  apply String.eqb_neq in Hd. apply String.eqb_neq in He. tauto.
Qed.

Lemma closing_true (e : Event) :
  closing e = true -> type e = "done" \/ type e = "error".
Proof.
  unfold closing. intros H. apply orb_true_iff in H as [H | H];
    apply String.eqb_eq in H; tauto.
Qed.

(** An event that does not close: an [open] turns the status to
    [Streaming], a message is appended, nothing else changes. *)
Lemma dispatch_nonclosing (e : Event) (st : State) :
  is_open st = true -> closing e = false ->
  dispatch e st =
  mkState (lines st ++ message_data [e])
          (if String.eqb (type e) "open" then Streaming else status st)
          (error st) (es st).
Proof.
  intros Hopen Hc. apply closing_false in Hc as [Hd He].
  unfold dispatch. rewrite Hopen. unfold message_data. rewrite filter_cons, filter_nil.
  destruct (type_cases e) as [H | [H | [H | [H | (Ho & Hm & _)]]]]; try contradiction.
  - rewrite fire_open by exact H. rewrite H.
    rewrite decide_False by discriminate. simpl. rewrite app_nil_r. reflexivity.
  - rewrite fire_message by exact H. rewrite H.
    rewrite decide_True by reflexivity. reflexivity.
  - rewrite fire_other by assumption.
    rewrite decide_False by exact Hm.
    apply String.eqb_neq in Ho. rewrite Ho. simpl. rewrite app_nil_r.
    destruct st; reflexivity.
Qed.

(** An event that closes: it decides the status, an [error] event also
    the error cell, and the [EventSource] is closed. *)
Lemma dispatch_closing (e : Event) (st : State) :
  is_open st = true -> closing e = true ->
  dispatch e st =
  close (mkState (lines st) (status_after e) (error_after e (error st)) (es st)).
Proof.
  intros Hopen Hc. unfold dispatch. rewrite Hopen.
  unfold status_after, error_after.
  destruct (closing_true e Hc) as [H | H].
  - rewrite fire_done by exact H. rewrite H. simpl.
    unfold done_listener.
    destruct (decide (data e = JStr "completed")) as [Hd | Hd].
    + rewrite bool_decide_eq_true_2 by exact Hd. reflexivity.
    + rewrite bool_decide_eq_false_2 by exact Hd. reflexivity.
  - rewrite fire_error by exact H. rewrite H. reflexivity.
Qed.

Lemma message_data_cons (e : Event) (evs : list Event) :
  message_data (e :: evs) = message_data [e] ++ message_data evs.
Proof.
  unfold message_data. rewrite !filter_cons, filter_nil.
  destruct (decide (type e = "message")); reflexivity.
Qed.

Lemma run_nonclosing (evs : list Event) (st : State) :
  is_open st = true ->
  Forall (fun e => closing e = false) evs ->
  run evs st =
  mkState (lines st ++ message_data evs)
          (if has_open evs then Streaming else status st)
          (error st) (es st).
Proof.
  intros Hopen Hall. revert st Hopen.
  induction Hall as [| e evs He _ IH]; intros st Hopen.
  - simpl. unfold message_data. simpl. rewrite app_nil_r. destruct st; reflexivity.
  - cbn [run]. rewrite (dispatch_nonclosing e st Hopen He).
    rewrite IH by exact Hopen. cbn [lines status error es].
    rewrite (message_data_cons e evs), app_assoc. unfold has_open. cbn [existsb].
    destruct (String.eqb (type e) "open"); simpl; [| reflexivity].
    destruct (existsb _ evs); reflexivity.
Qed.

Lemma run_first_closing (pre post : list Event) (e : Event) (st : State) :
  is_open st = true ->
  Forall (fun x => closing x = false) pre ->
  closing e = true ->
  run (pre ++ e :: post) st =
  close (mkState (lines st ++ message_data pre) (status_after e)
                 (error_after e (error st)) (es st)).
Proof.
  intros Hopen Hpre He. rewrite run_app, (run_nonclosing pre st Hopen Hpre).
  cbn [run]. rewrite dispatch_closing by assumption.
  cbn [lines status error es]. apply run_closed, is_open_close.
Qed.

(** A sequence of events has no closing event, or a first one. *)
Lemma first_closing_split (evs : list Event) :
  Forall (fun e => closing e = false) evs
  \/ exists pre e post,
       evs = pre ++ e :: post
       /\ Forall (fun x => closing x = false) pre /\ closing e = true.
Proof.
  induction evs as [| a evs IH]; [left; constructor |].
  destruct (closing a) eqn:Ha.
  - right. exists [], a, evs. repeat split; [constructor | exact Ha].
  - destruct IH as [IH | (pre & e & post & -> & Hpre & He)].
    + left. constructor; assumption.
    + right. exists (a :: pre), e, post. repeat split; [constructor; assumption | exact He].
Qed.

End HookMore.

Section HookStreams.
Import UseJobSSE Notions.
Local Open Scope list_scope.

(** X15: on an open stream the first event of type [done] or [error]
    decides everything: the lines are the messages received before it,
    the status is [Done] when it is a [done] event carrying ["completed"]
    and [Failed] otherwise, the error cell takes the data of an [error]
    event and is kept by a [done] event, the [EventSource] is closed, and
    whatever follows is ignored. *)
Theorem first_closing_event_decides
    (pre post : list Event) (e : Event) (st : State) :
  is_open st = true ->
  Forall (fun x => closing x = false) pre ->
  closing e = true ->
  run (pre ++ e :: post) st =
  close (mkState (lines st ++ message_data pre) (status_after e)
                 (error_after e (error st)) (es st)).
Proof. apply run_first_closing. Qed.

Lemma first_closing_event_decides_witness :
  run warned_stream started_hook
  = mkState [JStr "transcribing"] Failed (JStr "rate limited")
            (Some (mkES (Api.getEventsUrl "job-1" signed_in_browser) true)).
Proof.
  refine (first_closing_event_decides
            [ConnOpen; ServerSent "message" "transcribing"]
            [ServerSent "done" "completed"]
            (ServerSent "error" "rate limited") started_hook eq_refl _ eq_refl).
  repeat constructor.
Defined.

(** X16: as long as no event of type [done] or [error] has arrived, an
    open stream stays open; its lines are all the messages so far, its
    status is [Streaming] once an [open] event has arrived and unchanged
    before, and the error cell is untouched. *)
Theorem stream_without_closing_event (evs : list Event) (st : State) :
  is_open st = true ->
  Forall (fun e => closing e = false) evs ->
  run evs st =
  mkState (lines st ++ message_data evs)
          (if has_open evs then Streaming else status st)
          (error st) (es st).
Proof. apply run_nonclosing. Qed.

Lemma stream_without_closing_event_witness :
  run clean_prefix started_hook
  = mkState [JStr "transcribing"; JStr "translating"] Streaming JNull
            (Some (mkES (Api.getEventsUrl "job-1" signed_in_browser) false)).
Proof.
  refine (stream_without_closing_event clean_prefix started_hook eq_refl _).
  repeat constructor.
Defined.

(** X17: a hook mounted for a job ends in status [Done] exactly when the
    first event of type [done] or [error] in its stream is a [done] event
    carrying ["completed"]. *)
Theorem status_done_iff (id : string) (b : Auth.Browser) (evs : list Event) :
  truthy_string id = true ->
  (status (run evs (effect (Some id) b initial)) = Done
   <-> exists pre post,
         evs = pre ++ ServerSent "done" "completed" :: post
         /\ Forall (fun x => closing x = false) pre).
Proof.
  intros Hid.
  assert (Hst : effect (Some id) b initial
                = mkState [] Connecting JNull (Some (mkES (Api.getEventsUrl id b) false))).
  { simpl. rewrite Hid. reflexivity. }
  rewrite Hst. set (st := mkState _ _ _ _).
  assert (Hopen : is_open st = true) by reflexivity.
  split.
  - intros Hdone.
    destruct (first_closing_split evs) as [Hall | (pre & e & post & -> & Hpre & He)].
    + rewrite (run_nonclosing evs st Hopen Hall) in Hdone. simpl in Hdone.
      destruct (has_open evs); discriminate.
    + rewrite (run_first_closing pre post e st Hopen Hpre He) in Hdone.
      simpl in Hdone. unfold status_after in Hdone.
      destruct (String.eqb (type e) "done") eqn:Ht; [| discriminate].
      destruct (bool_decide (data e = JStr "completed")) eqn:Hd; [| discriminate].
      apply String.eqb_eq in Ht. apply bool_decide_eq_true in Hd.
      exists pre, post. split; [| exact Hpre].
      destruct e as [name d | |]; simpl in *; try discriminate.
      subst name. injection Hd as ->. reflexivity.
  - intros (pre & post & -> & Hpre).
    rewrite (run_first_closing pre post (ServerSent "done" "completed") st Hopen Hpre eq_refl).
    reflexivity.
Qed.

Lemma status_done_iff_witness :
  status (run (clean_prefix ++ [ServerSent "done" "completed"]) started_hook) = Done.
Proof.
  apply (proj2 (status_done_iff "job-1" signed_in_browser
                  (clean_prefix ++ [ServerSent "done" "completed"]) eq_refl)).
  exists clean_prefix, []. split; [reflexivity | repeat constructor].
Defined.

(** The state of a hook mounted for any job id, after any events, is of
    one of three shapes. *)
Lemma mounted_shape (jobId : option string) (b : Auth.Browser) (evs : list Event) :
  let st := run evs (effect jobId b initial) in
  (es st = None /\ st = initial)
  \/ (is_open st = true /\ (status st = Connecting \/ status st = Streaming))
  \/ (exists url, es st = Some (mkES url true))
     /\ (status st = Done \/ status st = Failed).
Proof.
  cbv zeta.
  assert (Hcases : effect jobId b initial = initial
                   \/ exists url, effect jobId b initial
                                  = mkState [] Connecting JNull (Some (mkES url false))).
  { destruct jobId as [id |]; simpl; [| left; reflexivity].
    destruct (truthy_string id); [right; eauto | left; reflexivity]. }
  destruct Hcases as [-> | (url & ->)].
  - left. rewrite run_closed by reflexivity. split; reflexivity.
  - right. set (st := mkState _ _ _ _).
    assert (Hopen : is_open st = true) by reflexivity.
    destruct (first_closing_split evs) as [Hall | (pre & e & post & -> & Hpre & He)].
    + left. rewrite (run_nonclosing evs st Hopen Hall). split; [reflexivity |].
      simpl. destruct (has_open evs); tauto.
    + right. rewrite (run_first_closing pre post e st Hopen Hpre He). split.
      * exists url. reflexivity.
      * simpl. unfold status_after.
        destruct (String.eqb (type e) "done" && bool_decide (data e = JStr "completed"));
          tauto.
Qed.

(** X18: for a hook mounted with any job id, after any events: the status
    is [Done] or [Failed] exactly when its [EventSource] exists and is
    closed, and from then on no event changes anything; a hook whose
    stream is open is [Connecting] or [Streaming]. *)
Theorem terminal_status_is_final
    (jobId : option string) (b : Auth.Browser) (evs more : list Event) :
  let st := run evs (effect jobId b initial) in
  ((status st = Done \/ status st = Failed) <-> exists url, es st = Some (mkES url true))
  /\ ((status st = Done \/ status st = Failed) -> run more st = st)
  /\ (is_open st = true -> status st = Connecting \/ status st = Streaming).
Proof.
  cbv zeta.
  destruct (mounted_shape jobId b evs)
    as [(Hes & Hinit) | [(Hopen & Hst) | ((url & Hes) & Hst)]];
    cbv zeta in *.
  - rewrite Hinit. simpl. split; [| split].
    + split; [intros [H | H]; discriminate | intros (url & H); discriminate].
    + intros [H | H]; discriminate.
    + discriminate.
  - set (st := run evs (effect jobId b initial)) in *.
    assert (Hnot : ~ (status st = Done \/ status st = Failed))
      by (destruct Hst as [-> | ->]; intros [H | H]; discriminate).
    split; [| split].
    + split; [intros H; contradiction |].
      intros (url & Hes). unfold is_open in Hopen. rewrite Hes in Hopen. discriminate.
    + intros H. contradiction.
    + intros _. exact Hst.
  - set (st := run evs (effect jobId b initial)) in *.
    assert (Hclosed : is_open st = false) by (unfold is_open; rewrite Hes; reflexivity).
    split; [| split].
    + split; [intros _; eauto | intros _; exact Hst].
    + intros _. apply run_closed, Hclosed.
    + rewrite Hclosed. discriminate.
Qed.

(** X19: a hook mounted without a job id, [null] or the empty string,
    opens no [EventSource]: it receives nothing and stays in its initial
    state whatever events are offered. *)
Theorem hook_without_job_id (jobId : option string) (b : Auth.Browser) (evs : list Event) :
  truthy_opt jobId = false ->
  effect jobId b initial = initial
  /\ run evs (effect jobId b initial) = initial
  /\ received evs (effect jobId b initial) = [].
Proof.
  intros Hid.
  assert (H : effect jobId b initial = initial).
  { destruct jobId as [id |]; simpl in *; [rewrite Hid |]; reflexivity. }
  rewrite H. split; [reflexivity |].
  split; [apply run_closed | apply received_closed]; reflexivity.
Qed.

Lemma hook_without_job_id_witness :
  run warned_stream (effect (Some "") signed_in_browser initial) = initial
  /\ run warned_stream (effect None signed_in_browser initial) = initial.
Proof.
  split.
  - exact (proj1 (proj2 (hook_without_job_id (Some "") signed_in_browser warned_stream eq_refl))).
  - exact (proj1 (proj2 (hook_without_job_id None signed_in_browser warned_stream eq_refl))).
Defined.

(** X20: the cleanup of the effect keeps lines, status and error as they
    are and closes the [EventSource]: after it no event is received and
    nothing changes, and a second cleanup does nothing. *)
Theorem cleanup_stops_processing (st : State) (evs : list Event) :
  lines (cleanup st) = lines st
  /\ status (cleanup st) = status st
  /\ error (cleanup st) = error st
  /\ is_open (cleanup st) = false
  /\ run evs (cleanup st) = cleanup st
  /\ received evs (cleanup st) = []
  /\ cleanup (cleanup st) = cleanup st.
Proof.
  pose proof (is_open_close st) as Hc.
  repeat split; try reflexivity.
  - exact Hc.
  - apply run_closed, Hc.
  - apply received_closed, Hc.
  - destruct st as [l s e [[u c] |]]; reflexivity.
Qed.

End HookStreams.

(** ** The page, beyond the download link *)

Section PageMore.
Import UseJobSSE Notions.

Lemma shows_failure_iff (h : Page.State) :
  shows_failure h = true <->
  App.ready h /\ truthy_opt (Page.jobId h) = true
  /\ Page.jobDone h = true /\ Page.jobStatus h = Page.failed.
Proof.
  unfold shows_failure, Page.view, App.ready.
  destruct (Page.authChecked h); simpl.
  2: { split; [discriminate | intros ((Hf & _) & _); discriminate]. }
  destruct (bool_decide (is_Some (Page.config h))) eqn:Hcfg; simpl.
  2: { apply bool_decide_eq_false in Hcfg.
       split; [discriminate | intros ((_ & Hs) & _); contradiction]. }
  apply bool_decide_eq_true in Hcfg.
  destruct (truthy_opt (Page.jobId h)); simpl.
  2: { split; [discriminate | intros (_ & Hf & _); discriminate]. }
  destruct (Page.jobDone h); simpl.
  2: { split; [discriminate | intros (_ & _ & Hf & _); discriminate]. }
  destruct (decide (Page.jobStatus h = Page.failed)) as [Hs | Hs].
  - rewrite (bool_decide_eq_true_2 _ Hs). tauto.
  - rewrite (bool_decide_eq_false_2 _ Hs).
    split; [discriminate | intros (_ & _ & _ & Hf); contradiction].
Qed.

(** Without a session nothing gets past the spinner. *)
Lemma no_session_run (b : Auth.Browser) (acts : list App.Action) (st : App.State) :
  Auth.isLoggedIn b = false ->
  Page.authChecked (App.home st) = false -> App.sse st = None ->
  Page.authChecked (App.home (App.run b acts st)) = false
  /\ App.sse (App.run b acts st) = None.
Proof.
  intros Hb. revert st. induction acts as [| a acts IH]; intros st Ha Hs; [auto |].
  cbn [App.run]. apply IH.
  - destruct st as [h s]. simpl in *.
    destruct a as [| c | id | e |]; simpl.
    + unfold Page.mount_effect. rewrite Hb. exact Ha.
    + exact Ha.
    + unfold Page.view. rewrite Ha. exact Ha.
    + rewrite Hs. exact Ha.
    + unfold Page.view. rewrite Ha. exact Ha.
  - destruct st as [h s]. simpl in *.
    destruct a as [| c | id | e |]; simpl; try exact Hs.
    + unfold Page.view. rewrite Ha. exact Hs.
    + rewrite Hs. reflexivity.
    + unfold Page.view. rewrite Ha. exact Hs.
Qed.

Lemma spinner_without_auth (h : Page.State) :
  Page.authChecked h = false -> Page.view h = Page.Spinner.
Proof. unfold Page.view. intros ->. reflexivity. Qed.

(** X21: in a browser without a session the page never gets past its
    spinner, whatever happens: no form, no progress card, no download
    link, and no [EventSource] is ever opened. *)
Theorem page_without_session_shows_spinner (b : Auth.Browser) (acts : list App.Action) :
  Auth.isLoggedIn b = false ->
  let st := App.run b acts App.initial in
  Page.view (App.home st) = Page.Spinner
  /\ App.sse st = None
  /\ Page.offers_download (App.home st) = false.
Proof.
  intros Hb. cbv zeta.
  destruct (no_session_run b acts App.initial Hb eq_refl eq_refl) as [Ha Hs].
  pose proof (spinner_without_auth _ Ha) as Hv.
  split; [exact Hv |]. split; [exact Hs |].
  unfold Page.offers_download. rewrite Hv. reflexivity.
Qed.

Lemma page_without_session_shows_spinner_witness :
  Page.view (App.home (App.run fresh_browser
                         [App.Mount; App.ConfigLoaded sample_config;
                          App.JobStarted "job-1"; App.Stream ConnOpen] App.initial))
  = Page.Spinner.
Proof.
  refine (proj1 (page_without_session_shows_spinner fresh_browser _ _)).
  vm_compute. reflexivity.
Defined.

(** X22: once an API call has been answered 401 or 403, the browser it
    leaves has no session: a page loaded in it stays at the spinner
    whatever happens, and the URLs of a job carry no token. *)
Theorem expired_session_blocks_page
    (res : Api.Response) (b : Auth.Browser) (acts : list App.Action) (jobId : string) :
  Api.status res = 401%Z \/ Api.status res = 403%Z ->
  let b' := fst (Api.handleResponse res b) in
  Auth.isLoggedIn b' = false
  /\ Page.view (App.home (App.run b' acts App.initial)) = Page.Spinner
  /\ App.sse (App.run b' acts App.initial) = None
  /\ Api.getEventsUrl jobId b' = Api.API ++ "/jobs/" ++ jobId ++ "/events".
Proof.
  intros Hst. cbv zeta. rewrite (handleResponse_unauthorized res b Hst). simpl.
  assert (Hb : Auth.isLoggedIn (logged_out b) = false).
  { unfold Auth.isLoggedIn. rewrite (proj1 (logged_out_forgets b)). reflexivity. }
  destruct (no_session_run (logged_out b) acts App.initial Hb eq_refl eq_refl) as [Ha Hs].
  split; [exact Hb |]. split; [apply spinner_without_auth, Ha |]. split; [exact Hs |].
  unfold Api.getEventsUrl, Api.token_query.
  rewrite (proj1 (logged_out_forgets b)). rewrite append_empty_r. reflexivity.
Qed.

Lemma expired_session_blocks_page_witness :
  Page.view (App.home (App.run (fst (Api.handleResponse session_expired signed_in_browser))
                         [App.Mount; App.ConfigLoaded sample_config] App.initial))
  = Page.Spinner.
Proof.
  exact (proj1 (proj2 (expired_session_blocks_page session_expired signed_in_browser
                         [App.Mount; App.ConfigLoaded sample_config] "job-1"
                         (or_introl eq_refl)))).
Defined.

(** X23: in every state the page can reach, the failure banner is shown
    exactly when the hook of the mounted progress component has ended in
    status [Failed]; the banner and the download link are never shown
    together. *)
Theorem failure_banner_iff_hook_failed (b : Auth.Browser) (acts : list App.Action) :
  let st := App.run b acts App.initial in
  (shows_failure (App.home st) = true
   <-> exists hook, App.sse st = Some hook /\ status hook = Failed)
  /\ (shows_failure (App.home st) && Page.offers_download (App.home st) = false).
Proof.
  cbv zeta.
  assert (Hc : App.consistent (App.run b acts App.initial))
    by (apply consistent_run; reflexivity).
  set (st := App.run b acts App.initial) in *.
  pose proof (shows_failure_iff (App.home st)) as Hf.
  pose proof (offers_download_iff (App.home st)) as Hd.
  split.
  - unfold App.consistent in Hc. destruct (App.sse st) as [hook |] eqn:Hsse.
    + destruct Hc as (Hready & Hid &
        [(Hopen & Hst & Hjd & Hjs) | [(Hopen & Hst & Hjd & Hjs) | (Hopen & Hst & Hjd & Hjs)]]).
      * split.
        -- intros Ho. apply Hf in Ho as (_ & _ & Hdone & _). congruence.
        -- intros (hook' & Heq & Hfl). injection Heq as <-.
           destruct Hst as [Hst | Hst]; congruence.
      * split.
        -- intros Ho. apply Hf in Ho as (_ & _ & _ & Hfl). congruence.
        -- intros (hook' & Heq & Hfl). injection Heq as <-. congruence.
      * split; [intros _; eauto |]. intros _. apply Hf. tauto.
    + split.
      * intros Ho. apply Hf in Ho as (_ & Hid & _). congruence.
      * intros (hook' & Heq & _). discriminate.
  - apply not_true_is_false. intros Hboth.
    apply andb_true_iff in Hboth as [Hsf Ho].
    apply (proj1 Hf) in Hsf as (_ & _ & _ & Hfl).
    apply (proj1 Hd) in Ho as (_ & _ & _ & Hcomp). congruence.
Qed.

End PageMore.

Section PageTransitions.
Import UseJobSSE Notions.

Lemma form_card_ready (h : Page.State) :
  Page.view h = Page.FormCard ->
  Page.authChecked h = true
  /\ bool_decide (is_Some (Page.config h)) = true
  /\ truthy_opt (Page.jobId h) = false.
Proof.
  unfold Page.view.
  destruct (Page.authChecked h); simpl; [| discriminate].
  destruct (bool_decide (is_Some (Page.config h))); simpl; [| discriminate].
  destruct (truthy_opt (Page.jobId h)); simpl; [discriminate | auto].
Qed.

Lemma progress_card_ready (h : Page.State) (d f : bool) :
  Page.view h = Page.ProgressCard d f ->
  Page.authChecked h = true /\ bool_decide (is_Some (Page.config h)) = true.
Proof.
  unfold Page.view.
  destruct (Page.authChecked h); simpl; [| discriminate].
  destruct (bool_decide (is_Some (Page.config h))); simpl; [auto | discriminate].
Qed.

Lemma view_after_job_started (id : string) (h : Page.State) :
  Page.view h = Page.FormCard ->
  Page.view (Page.handleJobStarted id h)
  = if String.eqb id "" then Page.FormCard else Page.ProgressCard false false.
Proof.
  intros Hv. destruct (form_card_ready h Hv) as (Ha & Hc & _).
  unfold Page.view, Page.handleJobStarted. simpl. rewrite Ha, Hc. simpl.
  unfold truthy_string. destruct (String.eqb id ""); reflexivity.
Qed.

Lemma job_started_view (b : Auth.Browser) (id : string) (st : App.State) :
  Page.view (App.home st) = Page.FormCard ->
  Page.view (App.home (App.step b (App.JobStarted id) st))
  = if String.eqb id "" then Page.FormCard else Page.ProgressCard false false.
Proof.
  intros Hv. unfold App.step. rewrite Hv. cbn [App.home].
  apply view_after_job_started, Hv.
Qed.

(** X24: when the form reports a started job, the page switches to the
    progress card of that job, with a freshly mounted hook, connecting,
    without lines, and with neither download link nor failure banner,
    also when the job shown before had ended; a job id that is the empty
    string leaves the form in place and opens no [EventSource]. *)
Theorem job_started_shows_progress (b : Auth.Browser) (id : string) (st : App.State) :
  Page.view (App.home st) = Page.FormCard ->
  let st' := App.step b (App.JobStarted id) st in
  if String.eqb id ""
  then Page.view (App.home st') = Page.FormCard /\ App.sse st' = None
  else Page.view (App.home st') = Page.ProgressCard false false
       /\ App.sse st' = Some (mkState [] Connecting JNull
                                      (Some (mkES (Api.getEventsUrl id b) false))).
Proof.
  intros Hv. cbv zeta. unfold App.step. rewrite Hv. cbn [App.home App.sse].
  unfold App.mount_progress. rewrite (view_after_job_started id _ Hv).
  destruct (String.eqb id "") eqn:Hid; [split; reflexivity |].
  split; [reflexivity |]. simpl. unfold truthy_string. rewrite Hid. reflexivity.
Qed.

Lemma job_started_shows_progress_witness :
  Page.jobDone (App.home returned_app) = true
  /\ Page.view (App.home (App.step signed_in_browser (App.JobStarted "job-2") returned_app))
     = Page.ProgressCard false false.
Proof.
  split; [vm_compute; reflexivity |].
  refine (proj1 (job_started_shows_progress signed_in_browser "job-2" returned_app _)).
  vm_compute. reflexivity.
Defined.

Lemma stream_without_hook (b : Auth.Browser) (evs : list Event) (st : App.State) :
  App.sse st = None -> App.run b (map App.Stream evs) st = st.
Proof.
  intros Hs. induction evs as [| e evs IH]; [reflexivity |].
  cbn [map App.run]. unfold App.step at 1. rewrite Hs. exact IH.
Qed.

(** X25: the "Start new job" button of the progress card brings back the
    form and discards the hook: events of the old job's stream no longer
    change anything, and the job started next begins without download
    link and without failure banner, whatever the outcome of the old one
    was. *)
Theorem start_new_job_returns_to_form
    (b : Auth.Browser) (st : App.State) (d f : bool) (evs : list Event) (id : string) :
  Page.view (App.home st) = Page.ProgressCard d f ->
  let st' := App.step b App.StartNewJob st in
  Page.view (App.home st') = Page.FormCard
  /\ App.sse st' = None
  /\ App.run b (map App.Stream evs) st' = st'
  /\ Page.offers_download (App.home (App.step b (App.JobStarted id) st')) = false
  /\ shows_failure (App.home (App.step b (App.JobStarted id) st')) = false.
Proof.
  intros Hv. cbv zeta. destruct (progress_card_ready _ d f Hv) as (Ha & Hc).
  assert (Hstep : App.step b App.StartNewJob st
                  = App.mkState (Page.setJobId None (App.home st)) None).
  { unfold App.step. rewrite Hv. reflexivity. }
  rewrite Hstep.
  assert (Hform : Page.view (Page.setJobId None (App.home st)) = Page.FormCard).
  { unfold Page.view. simpl. rewrite Ha, Hc. reflexivity. }
  split; [exact Hform |]. split; [reflexivity |].
  split; [apply stream_without_hook; reflexivity |].
  pose proof (job_started_view b id (App.mkState (Page.setJobId None (App.home st)) None) Hform)
    as Hnext.
  unfold Page.offers_download, shows_failure. rewrite Hnext.
  destruct (String.eqb id ""); split; reflexivity.
Qed.

Lemma start_new_job_returns_to_form_witness :
  Page.view (App.home (App.step signed_in_browser App.StartNewJob finished_app))
  = Page.FormCard.
Proof.
  refine (proj1 (start_new_job_returns_to_form signed_in_browser finished_app true false
                   [] "job-2" _)).
  vm_compute. reflexivity.
Defined.

End PageTransitions.

(** ** The login page *)

Section LoginFacts.
Import Auth Api LoginPage.

Variable server : Server.
Variable res : Response.
Hypothesis answers : forall req, server req = Responded res.

Lemma attempt_answered (st : State) (b : Browser) :
  attempt server st b =
  (if negb (ok res) then
     body <- res_json res ;;
     detail <- lift (get_prop body "detail") ;;
     throw (new_error detail (mode_name (mode st) ++ " failed"))
   else
     data <- res_json res ;;
     token <- lift (get_prop data "token") ;;
     email <- lift (get_prop data "email") ;;
     saveAuth_call token email ;;;
     write (router_push "/")) b.
Proof. unfold attempt, bind at 1, fetch. rewrite answers. reflexivity. Qed.

Lemma attempt_rejected_browser (st : State) (b : Browser) :
  ok res = false ->
  exists e, attempt server st b = (b, Threw e)
            /\ forall v detail, body res = BodyJson v ->
                 get_prop v "detail" = Returned detail ->
                 e = new_error detail (mode_name (mode st) ++ " failed").
Proof.
  intros Hok. rewrite attempt_answered, Hok. simpl.
  unfold bind, res_json, lift, throw, ret.
  destruct (body res) as [v | m]; simpl.
  - destruct (get_prop v "detail") as [d | e] eqn:Hd; simpl.
    + eexists. split; [reflexivity |]. intros v' d' Hv Hd'.
      injection Hv as <-. rewrite Hd in Hd'. injection Hd' as <-. reflexivity.
    + eexists. split; [reflexivity |]. intros v' d' Hv Hd'.
      injection Hv as <-. rewrite Hd in Hd'. discriminate.
  - eexists. split; [reflexivity |]. intros v' d' Hv. discriminate.
Qed.

Lemma attempt_accepted (st : State) (b : Browser) (fields : list (string * json)) :
  ok res = true ->
  body res = BodyJson (JsObject fields) ->
  attempt server st b
  = (saveAuth_call (assoc "token" fields) (assoc "email" fields) ;;;
     write (router_push "/")) b.
Proof.
  intros Hok Hbody. rewrite attempt_answered, Hok. simpl.
  unfold bind at 1, res_json. rewrite Hbody. reflexivity.
Qed.

End LoginFacts.

Section LoginClaims.
Import Auth Api LoginPage Notions.

(** X26: a login or registration answered with an OK response and a JSON
    object stores the string conversions of its [token] and [email]
    (["undefined"] for a missing one) as the session, goes to the home
    page, shows no error and ends not loading; the user then counts as
    logged in unless the stored token is empty, and a non-empty token is
    sent as [Bearer] authorization by the API calls that follow. When the
    conversion of [email] throws, the token alone is stored, and when
    that of [token] throws nothing is; in both cases the page stays and
    its error is the message of what was thrown. *)
Theorem login_success_stores_session
    (server : Server) (res : Response) (st : State) (b : Browser)
    (fields : list (string * json)) :
  (forall req, server req = Responded res) ->
  ok res = true ->
  body res = BodyJson (JsObject fields) ->
  let r := handleSubmit server st b in
  (forall token email,
      storage_string (assoc "token" fields) = Returned token ->
      storage_string (assoc "email" fields) = Returned email ->
      fst r = router_push "/" (saveAuth token email b)
      /\ snd r = setLoading false (setError None st)
      /\ getToken (fst r) = Some token
      /\ getEmail (fst r) = Some email
      /\ location_href (fst r) = "/"
      /\ isLoggedIn (fst r) = negb (String.eqb token "")
      /\ (String.eqb token "" = false ->
          authHeaders ∅ (fst r) !! "Authorization" = Some ("Bearer " ++ token)))
  /\ (forall token e,
      storage_string (assoc "token" fields) = Returned token ->
      storage_string (assoc "email" fields) = Threw e ->
      fst r = mkBrowser (<[TOKEN_KEY := token]> (localStorage b)) (location_href b)
      /\ snd r = setLoading false (setError (Some (exn_message e)) st))
  /\ (forall e,
      storage_string (assoc "token" fields) = Threw e ->
      fst r = b
      /\ snd r = setLoading false (setError (Some (exn_message e)) st)).
Proof.
  intros Hs Hok Hbody. cbv zeta.
  unfold handleSubmit. rewrite (attempt_accepted server res Hs st b fields Hok Hbody).
  unfold saveAuth_call, setItem, seq, bind, lift, write.
  split; [| split].
  - intros token email Htok Hem. rewrite Htok, Hem. cbn [fst snd].
    change (mkBrowser (<[EMAIL_KEY := email]> _) _) with (saveAuth token email b).
    assert (Ht : getToken (router_push "/" (saveAuth token email b)) = Some token).
    { unfold getToken, router_push. cbn [localStorage].
      rewrite lookup_saveAuth, decide_False by exact token_key_not_email_key.
      rewrite decide_True by reflexivity. reflexivity. }
    split; [reflexivity |]. split; [reflexivity |]. split; [exact Ht |].
    split.
    { unfold getEmail, router_push. cbn [localStorage].
      rewrite lookup_saveAuth, decide_True by reflexivity. reflexivity. }
    split; [reflexivity |].
    split; [unfold isLoggedIn; rewrite Ht; reflexivity |].
    intros Hne. unfold authHeaders. rewrite Ht. unfold truthy_string. rewrite Hne. simpl.
    rewrite lookup_union_r by apply lookup_empty. apply lookup_singleton_eq.
  - intros token e Htok Hem. rewrite Htok, Hem. split; reflexivity.
  - intros e Htok. rewrite Htok. split; reflexivity.
Qed.

Lemma login_success_stores_session_witness :
  getToken (fst (handleSubmit (always signed_in) initial fresh_browser)) = Some "t0k3n"
  /\ isLoggedIn (fst (handleSubmit (always signed_in) initial fresh_browser)) = true
  /\ getToken (fst (handleSubmit (always accepted) initial fresh_browser)) = Some "undefined".
Proof.
  pose proof (login_success_stores_session (always signed_in) signed_in initial
                fresh_browser _ (fun _ => eq_refl) eq_refl eq_refl) as H.
  pose proof (login_success_stores_session (always accepted) accepted initial
                fresh_browser _ (fun _ => eq_refl) eq_refl eq_refl) as H'.
  cbv zeta in H, H'.
  destruct H as (H & _). destruct H' as (H' & _).
  destruct (H _ _ eq_refl eq_refl) as (_ & _ & Ht & _ & _ & Hl & _).
  destruct (H' _ _ eq_refl eq_refl) as (_ & _ & Ht' & _).
  split; [exact Ht |]. split; [exact Hl | exact Ht'].
Defined.

(** X27: a login or registration answered with a response that is not OK
    stores nothing and does not leave the page, 401 and 403 included: the
    browser is as it was, the page ends not loading, and its error is the
    message of what the attempt threw, shown unless that message is
    empty. For a JSON body other than [null] what is thrown is the error
    made of the body's [detail], or of the name of the mode followed by
    ["failed"] when [detail] is absent or falsy, and that fallback is
    always shown. *)
Theorem login_rejected_stores_nothing
    (server : Server) (res : Response) (st : State) (b : Browser) :
  (forall req, server req = Responded res) ->
  ok res = false ->
  exists e,
    handleSubmit server st b
    = (b, setLoading false (setError (Some (exn_message e)) st))
    /\ shows_error (snd (handleSubmit server st b)) = truthy_string (exn_message e)
    /\ forall v detail,
         body res = BodyJson v -> get_prop v "detail" = Returned detail ->
         e = new_error detail (mode_name (mode st) ++ " failed")
         /\ (truthy detail = false ->
             error (snd (handleSubmit server st b))
             = Some (mode_name (mode st) ++ " failed")
             /\ shows_error (snd (handleSubmit server st b)) = true).
Proof.
  intros Hs Hok.
  destruct (attempt_rejected_browser server res Hs st b Hok) as (e & He & Hd).
  exists e. unfold handleSubmit. rewrite He. cbn [fst snd].
  split; [reflexivity |]. split; [reflexivity |].
  intros v detail Hv Hdet. specialize (Hd v detail Hv Hdet).
  split; [exact Hd |]. intros Hf. rewrite Hd.
  unfold new_error, or_else_message. rewrite Hf.
  assert (Hm : exn_message (match (match detail with
                                   | Some _ => Returned (mode_name (mode st) ++ " failed")
                                   | None => Returned (mode_name (mode st) ++ " failed")
                                   end) with
                            | Returned message => Error message
                            | Threw e0 => e0
                            end) = mode_name (mode st) ++ " failed").
  { destruct detail; reflexivity. }
  unfold shows_error. cbn [error setError setLoading]. rewrite Hm.
  split; [reflexivity |]. destruct (mode st); reflexivity.
Qed.

Lemma login_rejected_stores_nothing_witness :
  handleSubmit (always session_expired) initial signed_in_browser
  = (signed_in_browser,
     setLoading false (setError (Some "Not authenticated") initial))
  /\ handleSubmit (always (mkResponse 500 (BodyJson (JsObject []))))
                  (setMode register initial) signed_in_browser
     = (signed_in_browser,
        setLoading false (setError (Some "register failed") (setMode register initial))).
Proof.
  destruct (login_rejected_stores_nothing (always session_expired) session_expired
              initial signed_in_browser (fun _ => eq_refl) eq_refl)
    as (e & He & _ & Hd).
  destruct (login_rejected_stores_nothing
              (always (mkResponse 500 (BodyJson (JsObject []))))
              (mkResponse 500 (BodyJson (JsObject [])))
              (setMode register initial) signed_in_browser (fun _ => eq_refl) eq_refl)
    as (e' & He' & _ & Hd').
  destruct (Hd _ _ eq_refl eq_refl) as (-> & _).
  destruct (Hd' _ _ eq_refl eq_refl) as (-> & _).
  split; [exact He | exact He'].
Defined.

End LoginClaims.
